(** * gcs_gallery_generator.py: a shallow embedding and its verification

    The script lists the image objects of a Cloud Storage bucket, attaches
    metadata to each (a date read off the file name, an access URL), sorts
    the entries by file name and renders one static HTML page through a
    Jinja template.

    Conventions of the embedding.
    - A Python [str] is a [string]: a sequence of code points below 256.  On
      that alphabet [\d] matches exactly [0-9], [str.lower] maps [A-Z] and
      the upper-case letters of Latin-1 to their lower-case forms, and the
      comparison of strings is the lexicographic order on code points.
    - A Python [int] is a [Z].
    - An exception is a value of [exn]; code that may raise returns a
      [result] and is sequenced with [x ← c; k].
    - The dict built for each image has the same ten literal keys, so it is
      a record with the keys as fields; the field types are those of the
      values the listing stores.
    - The storage service is a finite map from bucket names to objects; an
      object carries the outcome of each call the script makes on it.  The
      clock is a function from the number of the reading to seconds.  The
      local files are a finite map from paths to contents.
    - The library functions the script calls ([strptime], [re.search],
      [json.dumps], [Template.render], [os.path.basename], [list.sort]) are
      given by definitions of their documented behaviour on the arguments
      the script passes.
    - [print] calls only report progress and are left out. *)

From Stdlib Require Import ZArith List String Ascii Lia Bool.
From Stdlib Require Import DecimalString DecimalFacts DecimalPos DecimalN DecimalZ.
From stdpp Require Import base option list gmap strings sorting.

Local Open Scope Z_scope.

(* ===================================================================== *)
(** ** Python runtime *)
(* ===================================================================== *)

Module Py.

(** Exceptions the program can meet. *)
Inductive exn : Type :=
| ZeroDivisionError
| ValueError
| NotFound            (* google.api_core.exceptions.NotFound *)
| GoogleAPIError      (* any other failure of a storage call *)
| SigningError        (* what generate_signed_url raises without a key *)
| OSError.

Inductive result (A : Type) : Type :=
| Ok (a : A)
| Raise (e : exn).
Arguments Ok {A} a.
Arguments Raise {A} e.

Definition bind {A B} (c : result A) (k : A -> result B) : result B :=
  match c with
  | Ok a => k a
  | Raise e => Raise e
  end.

(** [try: c except: h] with a handler that does not raise. *)
Definition try_except {A} (c : result A) (h : exn -> A) : A :=
  match c with
  | Ok a => a
  | Raise e => h e
  end.

(** [a // b] on ints: floor division, [ZeroDivisionError] on [b = 0]. *)
Definition floordiv (a b : Z) : result Z :=
  if b =? 0 then Raise ZeroDivisionError else Ok (a / b).

(** [len(l)] *)
Definition len {A} (l : list A) : Z := Z.of_nat (length l).

(** [str(n)] for an int. *)
Definition str_of_int (n : Z) : string :=
  NilZero.string_of_int (Z.to_int n).

Definition QUOTE : ascii := "034"%char.
Definition BACKSLASH : ascii := "092"%char.
Definition SLASH : ascii := "/"%char.

Definition code (c : ascii) : Z := Z.of_N (N_of_ascii c).
Definition chr (n : Z) : ascii := ascii_of_N (Z.to_N n).

(** Truth value of an optional str: [None] and [''] are false. *)
Definition truthy (s : option string) : bool :=
  match s with
  | Some (String _ _) => true
  | _ => false
  end.

(** [s or d] where [s] is a str or None. *)
Definition or_else (s : option string) (d : string) : string :=
  match s with
  | Some (String c r) => String c r
  | _ => d
  end.

(** [c.lower()] on the code points below 256: A-Z, and the Latin-1
    capitals 0xC0-0xDE without the multiplication sign 0xD7. *)
Definition lower_char (c : ascii) : ascii :=
  let n := code c in
  if ((65 <=? n) && (n <=? 90)) || ((192 <=? n) && (n <=? 222) && negb (n =? 215))
  then chr (n + 32) else c.

Fixpoint lower (s : string) : string :=
  match s with
  | EmptyString => EmptyString
  | String c r => String (lower_char c) (lower r)
  end.

Fixpoint startswith (s p : string) {struct p} : bool :=
  match p, s with
  | EmptyString, _ => true
  | String _ _, EmptyString => false
  | String a p', String b s' => Ascii.eqb a b && startswith s' p'
  end.

(** [s[n:]] for [n >= 0]. *)
Fixpoint drop (n : nat) (s : string) : string :=
  match n, s with
  | O, _ => s
  | S _, EmptyString => EmptyString
  | S n', String _ r => drop n' r
  end.

Definition endswith (s suffix : string) : bool :=
  (String.length suffix <=? String.length s)%nat
  && String.eqb (drop (String.length s - String.length suffix) s) suffix.

(** [s.replace(old, new)] for a one-character [old]. *)
Fixpoint replace (old : ascii) (new : string) (s : string) : string :=
  match s with
  | EmptyString => EmptyString
  | String c r =>
      if Ascii.eqb c old then new +:+ replace old new r
      else String c (replace old new r)
  end.

(** [s.rfind(c)]: the last index of [c] in [s], or -1. *)
Fixpoint rfind (c : ascii) (s : string) : Z :=
  match s with
  | EmptyString => -1
  | String a r =>
      let i := rfind c r in
      if 0 <=? i then i + 1
      else if Ascii.eqb a c then 0 else -1
  end.

(** [s.rstrip(c)] for a one-character set. *)
Fixpoint rstrip (c : ascii) (s : string) : string :=
  match s with
  | EmptyString => EmptyString
  | String a r =>
      match rstrip c r with
      | EmptyString => if Ascii.eqb a c then EmptyString else String a EmptyString
      | r' => String a r'
      end
  end.

(** [os.path.basename(p)] (posixpath): [p[p.rfind('/') + 1:]]. *)
Definition basename (p : string) : string :=
  drop (Z.to_nat (rfind SLASH p + 1)) p.

(** [list.sort(key=key)] with str keys.  Two strs compare by code points,
    lexicographically: that is [String.leb].  The sort is stable, equal
    keys keep their order, and the stable sort by a total order is unique,
    so it is given here by insertion from the right, each element placed
    before the first one whose key is not smaller. *)
Section Sort.
Context {A : Type} (key : A -> string).

Fixpoint insert_by (x : A) (l : list A) : list A :=
  match l with
  | [] => [x]
  | y :: l' =>
      if String.leb (key x) (key y) then x :: y :: l'
      else y :: insert_by x l'
  end.

Fixpoint sort (l : list A) : list A :=
  match l with
  | [] => []
  | x :: l' => insert_by x (sort l')
  end.
End Sort.

(** ["%0wd" % n] for [n >= 0]: decimal, left-padded with zeros. *)
Definition zero_pad (w : nat) (n : Z) : string :=
  let s := str_of_int n in
  String.concat "" (repeat "0"%string (w - String.length s)) +:+ s.

End Py.

#[global] Instance result_ret : MRet Py.result := @Py.Ok.
#[global] Instance result_bind : MBind Py.result :=
  fun A B k c => Py.bind c k.

(* ===================================================================== *)
(** ** datetime: the part of the module the script calls *)
(* ===================================================================== *)

Module Datetime.
Import Py.

(** A [datetime.datetime]; [utcoffset] is [None] for a naive value and the
    offset in whole seconds for an aware one. *)
Record datetime : Type := mk_datetime {
  year : Z; month : Z; day : Z;
  hour : Z; minute : Z; second : Z; microsecond : Z;
  utcoffset : option Z
}.

Definition is_leap (y : Z) : bool :=
  (y mod 4 =? 0) && (negb (y mod 100 =? 0) || (y mod 400 =? 0)).

Definition days_in_month (y m : Z) : Z :=
  if m =? 2 then (if is_leap y then 29 else 28)
  else if (m =? 4) || (m =? 6) || (m =? 9) || (m =? 11) then 30
  else 31.

(** The range check of the [datetime] constructor on a calendar date. *)
Definition valid_date (y m d : Z) : bool :=
  (1 <=? y) && (y <=? 9999) && (1 <=? m) && (m <=? 12)
  && (1 <=? d) && (d <=? days_in_month y m).

Definition is_digit (c : ascii) : bool := (48 <=? code c) && (code c <=? 57).

Definition digit_val (c : ascii) : Z := code c - 48.

Definition in_range (lo hi : ascii) (c : ascii) : bool :=
  (code lo <=? code c) && (code c <=? code hi).

(** One alternative of a directive's regular expression that reads two
    characters, resp. one; the value is [int()] of the text matched. *)
Definition two (p1 p2 : ascii -> bool) (s : string) : option (Z * string) :=
  match s with
  | String a (String b r) =>
      if p1 a && p2 b
      then Some ((if is_digit a then 10 * digit_val a else 0) + digit_val b, r)
      else None
  | _ => None
  end.

Definition one (p : ascii -> bool) (s : string) : option (Z * string) :=
  match s with
  | String a r => if p a then Some (digit_val a, r) else None
  | _ => None
  end.

Definition exactly (c : ascii) (a : ascii) : bool := Ascii.eqb a c.

(** [%Y] is [\d\d\d\d]. *)
Definition directive_Y (s : string) : option (Z * string) :=
  match s with
  | String a (String b (String c (String d r))) =>
      if is_digit a && is_digit b && is_digit c && is_digit d
      then Some (1000 * digit_val a + 100 * digit_val b
                 + 10 * digit_val c + digit_val d, r)
      else None
  | _ => None
  end.

(** [%m] is [1[0-2]|0[1-9]|[1-9]]. *)
Definition directive_m : list (string -> option (Z * string)) :=
  [ two (exactly "1") (in_range "0" "2");
    two (exactly "0") (in_range "1" "9");
    one (in_range "1" "9") ].

(** [%d] is [3[0-1]|[1-2]\d|0[1-9]|[1-9]| [1-9]]. *)
Definition directive_d : list (string -> option (Z * string)) :=
  [ two (exactly "3") (in_range "0" "1");
    two (in_range "1" "2") is_digit;
    two (exactly "0") (in_range "1" "9");
    one (in_range "1" "9");
    two (exactly " ") (in_range "1" "9") ].

(** The matches of the alternatives [alts] at the head of [s], in the
    order a backtracking matcher tries them. *)
Definition alternatives (alts : list (string -> option (Z * string)))
    (s : string) : list (Z * string) :=
  omap (fun alt => alt s) alts.

(** [re.match] of the compiled format [%Y%m%d]: the year has one way to
    match, so the match is the first way, in backtracking order, to read
    a month and a day after it; what follows the match is returned with
    the fields. *)
Definition match_md (s : string) : option (Z * Z * string) :=
  head (flat_map (fun '(m, r1) =>
                    map (fun '(d, r2) => (m, d, r2))
                        (alternatives directive_d r1))
                 (alternatives directive_m s)).

Definition match_Ymd (s : string) : option (Z * Z * Z * string) :=
  '(y, r0) ← directive_Y s;
  '(m, d, r) ← match_md r0;
  Some (y, m, d, r).

(** [datetime.strptime(s, '%Y%m%d')]: [ValueError] when the format does
    not match, when text remains after the match, and when the fields are
    not a calendar date. *)
Definition strptime_Ymd (s : string) : result datetime :=
  match match_Ymd s with
  | None => Raise ValueError
  | Some (y, m, d, rest) =>
      match rest with
      | String _ _ => Raise ValueError
      | EmptyString =>
          if valid_date y m d
          then Ok (mk_datetime y m d 0 0 0 0 None)
          else Raise ValueError
      end
  end.

(** [%B] in the C locale. *)
Definition month_name (m : Z) : string :=
  nth (Z.to_nat (m - 1))
      [ "January"; "February"; "March"; "April"; "May"; "June"; "July";
        "August"; "September"; "October"; "November"; "December" ]%string
      ""%string.

(** [dt.strftime('%d %B')], e.g. [01 August]. *)
Definition strftime_d_B (dt : datetime) : string :=
  zero_pad 2 (day dt) +:+ " " +:+ month_name (month dt).

(** [dt.isoformat()]. *)
Definition format_offset (off : option Z) : string :=
  match off with
  | None => ""
  | Some o =>
      let a := Z.abs o in
      (if o <? 0 then "-" else "+")
      +:+ zero_pad 2 (a / 3600) +:+ ":" +:+ zero_pad 2 (a mod 3600 / 60)
      +:+ (if a mod 60 =? 0 then "" else ":" +:+ zero_pad 2 (a mod 60))
  end.

Definition isoformat (dt : datetime) : string :=
  zero_pad 4 (year dt) +:+ "-" +:+ zero_pad 2 (month dt) +:+ "-"
  +:+ zero_pad 2 (day dt) +:+ "T"
  +:+ zero_pad 2 (hour dt) +:+ ":" +:+ zero_pad 2 (minute dt) +:+ ":"
  +:+ zero_pad 2 (second dt)
  +:+ (if microsecond dt =? 0 then "" else "." +:+ zero_pad 6 (microsecond dt))
  +:+ format_offset (utcoffset dt).

End Datetime.

(* ===================================================================== *)
(** ** re: the one pattern the script searches for *)
(* ===================================================================== *)

Module Re.
Import Py.

(** [\d{n}] at the head of [s]: the [n] digits, if they are there. *)
Fixpoint digits (n : nat) (s : string) : option string :=
  match n with
  | O => Some EmptyString
  | S n' =>
      match s with
      | String c r =>
          if Datetime.is_digit c
          then g ← digits n' r; Some (String c g)
          else None
      | EmptyString => None
      end
  end.

(** [DT(\d{8})] at the head of [s]: group 1. *)
Definition match_DT_d8 (s : string) : option string :=
  match s with
  | String a (String b r) =>
      if Ascii.eqb a "D" && Ascii.eqb b "T" then digits 8 r else None
  | _ => None
  end.

(** [re.search(r'DT(\d{8})', s)]: the match at the leftmost position that
    has one; the result is [group(1)], [None] when nothing matches. *)
Fixpoint search_DT_d8 (s : string) : option string :=
  match match_DT_d8 s with
  | Some g => Some g
  | None =>
      match s with
      | EmptyString => None
      | String _ r => search_DT_d8 r
      end
  end.

End Re.

(* ===================================================================== *)
(** ** json: [dumps] as the script calls it, and a reader for its output *)
(* ===================================================================== *)

Module Json.
Import Py.

#[local] Set Warnings "-register-all".

(** The Python values the script serialises.  A dict keeps its insertion
    order, which is the order [dumps] writes its items in. *)
Inductive value : Type :=
| Null
| Bool (b : bool)
| Int (n : Z)
| Str (s : string)
| Arr (l : list value)
| Obj (items : list (string * value)).

Definition hex_digit (n : Z) : ascii :=
  if n <? 10 then chr (48 + n) else chr (87 + n).

(** ['\\u{0:04x}'.format(n)] for a code point below 256. *)
Definition escape_u (n : Z) : string :=
  String BACKSLASH (String "u" (String "0" (String "0"
    (String (hex_digit (n / 16)) (String (hex_digit (n mod 16)) EmptyString))))).

(** One character under [ensure_ascii=True] (the default): the short
    escapes of [ESCAPE_DCT], the printable ASCII characters as they are,
    everything else as [\uXXXX]. *)
Definition encode_char (c : ascii) : string :=
  let n := code c in
  if n =? 34 then String BACKSLASH (String QUOTE EmptyString)
  else if n =? 92 then String BACKSLASH (String BACKSLASH EmptyString)
  else if n =? 10 then String BACKSLASH "n"
  else if n =? 13 then String BACKSLASH "r"
  else if n =? 9 then String BACKSLASH "t"
  else if n =? 8 then String BACKSLASH "b"
  else if n =? 12 then String BACKSLASH "f"
  else if (32 <=? n) && (n <=? 126) then String c EmptyString
  else escape_u n.

Fixpoint encode_chars (s : string) : string :=
  match s with
  | EmptyString => EmptyString
  | String c r => encode_char c +:+ encode_chars r
  end.

(** [py_encode_basestring_ascii] *)
Definition encode_string (s : string) : string :=
  String QUOTE (encode_chars s +:+ String QUOTE EmptyString).

(** [json.dumps(v)] with the default separators [', '] and [': ']. *)
Fixpoint dumps (v : value) : string :=
  match v with
  | Null => "null"
  | Bool true => "true"
  | Bool false => "false"
  | Int n => str_of_int n
  | Str s => encode_string s
  | Arr l => "[" +:+ String.concat ", " (map dumps l) +:+ "]"
  | Obj items =>
      "{" +:+ String.concat ", "
                (map (fun kv => encode_string kv.1 +:+ ": " +:+ dumps kv.2) items)
      +:+ "}"
  end.

(** *** Reading JSON text (RFC 8259; numbers restricted to integers) *)

Definition is_ws (c : ascii) : bool :=
  let n := code c in (n =? 32) || (n =? 9) || (n =? 10) || (n =? 13).

Fixpoint skip_ws (s : string) : string :=
  match s with
  | String c r => if is_ws c then skip_ws r else s
  | EmptyString => EmptyString
  end.

Definition hex_val (c : ascii) : option Z :=
  let n := code c in
  if (48 <=? n) && (n <=? 57) then Some (n - 48)
  else if (97 <=? n) && (n <=? 102) then Some (n - 87)
  else if (65 <=? n) && (n <=? 70) then Some (n - 55)
  else None.

Definition hex4 (a b c d : ascii) : option Z :=
  x ← hex_val a; y ← hex_val b; z ← hex_val c; w ← hex_val d;
  Some (4096 * x + 256 * y + 16 * z + w).

(** The character a two-character escape stands for. *)
Definition unescape (e : ascii) : option ascii :=
  let n := code e in
  if n =? 34 then Some QUOTE
  else if n =? 92 then Some BACKSLASH
  else if n =? 47 then Some SLASH
  else if n =? 98 then Some (chr 8)
  else if n =? 102 then Some (chr 12)
  else if n =? 110 then Some (chr 10)
  else if n =? 114 then Some (chr 13)
  else if n =? 116 then Some (chr 9)
  else None.

Definition cons_fst (c : ascii) (p : string * string) : string * string :=
  (String c p.1, p.2).

(** The characters of a string literal after its opening quote, up to the
    closing quote; the text after the literal is returned with them.  A
    [\uXXXX] above 255 is outside the alphabet and is refused. *)
Fixpoint parse_string_body (s : string) : option (string * string) :=
  match s with
  | EmptyString => None
  | String c r =>
      if Ascii.eqb c QUOTE then Some (EmptyString, r)
      else if Ascii.eqb c BACKSLASH then
        match r with
        | EmptyString => None
        | String e r1 =>
            if Ascii.eqb e "u" then
              match r1 with
              | String h1 (String h2 (String h3 (String h4 r2))) =>
                  match hex4 h1 h2 h3 h4 with
                  | Some n =>
                      if n <? 256
                      then cons_fst (chr n) <$> parse_string_body r2
                      else None
                  | None => None
                  end
              | _ => None
              end
            else
              match unescape e with
              | Some c' => cons_fst c' <$> parse_string_body r1
              | None => None
              end
        end
      else if code c <? 32 then None
      else cons_fst c <$> parse_string_body r
  end.

Fixpoint span_digits (s : string) : string * string :=
  match s with
  | String c r =>
      if Datetime.is_digit c then cons_fst c (span_digits r)
      else (EmptyString, s)
  | EmptyString => (EmptyString, EmptyString)
  end.

Definition starts_fraction (s : string) : bool :=
  match s with
  | String c _ => (code c =? 46) || (code c =? 101) || (code c =? 69)
  | EmptyString => false
  end.

(** [0], or a digit string without a leading zero, not followed by a
    fraction or an exponent. *)
Definition parse_digits (s : string) : option (Z * string) :=
  let '(ds, rest) := span_digits s in
  match ds with
  | EmptyString => None
  | String lead ds' =>
      if Ascii.eqb lead "0" && negb (String.eqb ds' EmptyString) then None
      else if starts_fraction rest then None
      else u ← NilZero.uint_of_string ds; Some (Z.of_uint u, rest)
  end.

Definition parse_number (s : string) : option (Z * string) :=
  match s with
  | String c r =>
      if Ascii.eqb c "-" then '(n, rest) ← parse_digits r; Some (- n, rest)
      else parse_digits s
  | EmptyString => None
  end.

Fixpoint parse_value (fuel : nat) (s : string) : option (value * string) :=
  match fuel with
  | O => None
  | S n =>
      match skip_ws s with
      | EmptyString => None
      | String c r =>
          if Ascii.eqb c QUOTE then
            '(t, rest) ← parse_string_body r; Some (Str t, rest)
          else if Ascii.eqb c "[" then
            match skip_ws r with
            | String c1 r1 =>
                if Ascii.eqb c1 "]" then Some (Arr [], r1)
                else '(l, rest) ← parse_elements n r; Some (Arr l, rest)
            | EmptyString => None
            end
          else if Ascii.eqb c "{" then
            match skip_ws r with
            | String c1 r1 =>
                if Ascii.eqb c1 "}" then Some (Obj [], r1)
                else '(m, rest) ← parse_members n r; Some (Obj m, rest)
            | EmptyString => None
            end
          else if startswith (String c r) "null" then Some (Null, drop 4 (String c r))
          else if startswith (String c r) "true" then Some (Bool true, drop 4 (String c r))
          else if startswith (String c r) "false" then Some (Bool false, drop 5 (String c r))
          else '(z, rest) ← parse_number (String c r); Some (Int z, rest)
      end
  end
with parse_elements (fuel : nat) (s : string) : option (list value * string) :=
  match fuel with
  | O => None
  | S n =>
      '(v, r) ← parse_value n s;
      match skip_ws r with
      | String c r1 =>
          if Ascii.eqb c "," then
            '(l, rest) ← parse_elements n r1; Some (v :: l, rest)
          else if Ascii.eqb c "]" then Some ([v], r1)
          else None
      | EmptyString => None
      end
  end
with parse_members (fuel : nat) (s : string)
    : option (list (string * value) * string) :=
  match fuel with
  | O => None
  | S n =>
      match skip_ws s with
      | String c r =>
          if Ascii.eqb c QUOTE then
            '(k, r1) ← parse_string_body r;
            match skip_ws r1 with
            | String c1 r2 =>
                if Ascii.eqb c1 ":" then
                  '(v, r3) ← parse_value n r2;
                  match skip_ws r3 with
                  | String c3 r4 =>
                      if Ascii.eqb c3 "," then
                        '(m, rest) ← parse_members n r4; Some ((k, v) :: m, rest)
                      else if Ascii.eqb c3 "}" then Some ([(k, v)], r4)
                      else None
                  | EmptyString => None
                  end
                else None
            | EmptyString => None
            end
          else None
      | EmptyString => None
      end
  end.

(** A whole JSON text: one value, then only white space.  Each step of the
    reader consumes a character, so the length of the text is fuel
    enough. *)
Definition loads (s : string) : option value :=
  '(v, rest) ← parse_value (String.length s) s;
  match skip_ws rest with
  | EmptyString => Some v
  | String _ _ => None
  end.

(** [d[k]] on a parsed object. *)
Definition get (k : string) (v : value) : option value :=
  match v with
  | Obj items => snd <$> find (fun kv => String.eqb kv.1 k) items
  | _ => None
  end.

End Json.

(* ===================================================================== *)
(** ** jinja2: a template rendered with keyword arguments *)
(* ===================================================================== *)

Module Jinja.
Import Py.

Inductive val : Type :=
| VInt (n : Z)
| VStr (s : string).

(** A parsed template: literal text and [{{ name }}] / [{{ name|filter }}]
    expressions.  The script's template has no other construct. *)
Inductive node : Type :=
| Data (text : string)
| Output (name : string) (filters : list string).

Definition to_str (v : val) : string :=
  match v with
  | VInt n => str_of_int n
  | VStr s => s
  end.

(** [Template(...)] builds its environment with [autoescape=False]: an
    expression is written as [str(value)], and the [safe] filter, which
    only marks a value as not to be escaped, changes nothing.  A name
    missing from the context renders as the empty string. *)
Definition render_node (ctx : gmap string val) (n : node) : string :=
  match n with
  | Data text => text
  | Output name _ => default ""%string (to_str <$> ctx !! name)
  end.

Definition render (template : list node) (ctx : gmap string val) : string :=
  String.concat "" (map (render_node ctx) template).

End Jinja.

(* ===================================================================== *)
(** ** The script *)
(* ===================================================================== *)

Module Gallery.
Import Py Datetime.

(** *** The storage service, as the client library shows it *)

(** What [blob.reload()] fetches: the attributes [size], [time_created],
    [updated], [content_type] and [md5_hash] of the blob. *)
Record Metadata : Type := mk_Metadata {
  blob_size : option Z;
  blob_time_created : option datetime;
  blob_updated : option datetime;
  blob_content_type : option string;
  blob_md5_hash : option string
}.

(** An object of a bucket: its name, the outcome of [reload()], and the
    outcome of [generate_signed_url(expiration, method)] with the
    expiration as a reading of the clock in seconds. *)
Record Blob : Type := mk_Blob {
  blob_name : string;
  blob_reload : result Metadata;
  blob_generate_signed_url : Z -> string -> result string
}.

(** [storage.Client(project)]: the buckets it can reach, each with its
    objects in listing order. *)
Record Client : Type := mk_Client {
  buckets : gmap string (list Blob)
}.

(** [client.bucket(name).list_blobs(prefix=prefix)], read to its end: the
    objects of the bucket whose name starts with [prefix].  The one failure
    written out is the missing bucket; the other failures of the service
    (no permission, no connection) have no case here, and what is proved
    about a listing that fails is proved about this one only. *)
Definition list_blobs (c : Client) (bucket prefix : string)
    : result (list Blob) :=
  match buckets c !! bucket with
  | None => Raise NotFound
  | Some objs => Ok (filter (fun b => startswith (blob_name b) prefix = true) objs)
  end.

(** The local files: their contents, and which paths [open(path, 'w')]
    accepts. *)
Record FileSystem : Type := mk_FileSystem {
  files : gmap string string;
  can_write : string -> bool
}.

(** [with open(path, 'w', encoding='utf-8') as f: f.write(text)], where
    [open] refuses the path or the whole text is written.  A write that
    fails after [open] has emptied the file has no case here. *)
Definition write_file (path text : string) (fs : FileSystem)
    : result FileSystem :=
  if can_write fs path
  then Ok (mk_FileSystem (<[path := text]> (files fs)) (can_write fs))
  else Raise OSError.

(** *** class GCSImageGallery *)

Record GCSImageGallery : Type := mk_GCSImageGallery {
  project_id : string;
  bucket_name : string;
  folder_path : string;
  client : Client
}.

(** [__init__]; [storage] is what [storage.Client(project=project_id)]
    returns. *)
Definition init (storage : Client) (project_id bucket_name folder_path : string)
    : GCSImageGallery :=
  mk_GCSImageGallery project_id bucket_name
    (match folder_path with
     | String _ _ => rstrip SLASH folder_path +:+ "/"
     | EmptyString => ""
     end)
    storage.

(** The dict [image_info]. *)
Record ImageInfo : Type := mk_ImageInfo {
  name : string;
  filename : string;
  public_url : string;
  size : option Z;
  created : option datetime;
  updated : option datetime;
  content_type : option string;
  md5_hash : option string;
  date_str : option string;
  date_display : string
}.

Definition image_extensions : list string :=
  [".jpg"; ".jpeg"; ".png"; ".gif"; ".bmp"; ".webp"; ".tiff"; ".svg"]%string.

(** [any(blob.name.lower().endswith(ext) for ext in image_extensions)];
    the order in which the set is visited does not change an [any]. *)
Definition is_image (blob_name : string) : bool :=
  existsb (fun ext => endswith (lower blob_name) ext) image_extensions.

(** Lines 60-71: [date_str] and [date_display] of a file name. *)
Definition date_of_filename (filename : string) : option string * string :=
  match Re.search_DT_d8 filename with
  | Some date_str =>
      (Some date_str,
       try_except (date_obj ← strptime_Ymd date_str;
                   Ok (strftime_d_B date_obj))
                  (fun _ => date_str))
  | None => (None, "Unknown Date"%string)
  end.

Definition fallback_url (self : GCSImageGallery) (blob : Blob) : string :=
  "https://storage.googleapis.com/" +:+ bucket_name self +:+ "/" +:+ blob_name blob.

(** Lines 74-85; [now] is what [datetime.now()] reads, in seconds. *)
Definition access_url (self : GCSImageGallery) (now : Z) (blob : Blob) : string :=
  try_except (blob_generate_signed_url blob (now + 3600) "GET")
             (fun _ => fallback_url self blob).

(** Lines 59-98: the entry of an image blob whose metadata is [meta]. *)
Definition image_info (self : GCSImageGallery) (now : Z) (blob : Blob)
    (meta : Metadata) : ImageInfo :=
  let filename := basename (blob_name blob) in
  let '(date_str, date_display) := date_of_filename filename in
  let signed_url := access_url self now blob in
  mk_ImageInfo (blob_name blob) filename signed_url (blob_size meta)
    (blob_time_created meta) (blob_updated meta) (blob_content_type meta)
    (blob_md5_hash meta) date_str date_display.

(** The loop of lines 52-104 over the remaining [blobs], from the state
    ([images], [count]).  [clock k] is what [datetime.now()] reads while
    image number [k] is handled. *)
Fixpoint collect (self : GCSImageGallery) (clock : Z -> Z) (blobs : list Blob)
    (images : list ImageInfo) (count : Z) : result (list ImageInfo) :=
  match blobs with
  | [] => Ok images
  | blob :: rest =>
      if is_image (blob_name blob) then
        meta ← blob_reload blob;
        collect self clock rest
          (images ++ [image_info self (clock count) blob meta]) (count + 1)
      else collect self clock rest images count
  end.

Definition get_image_list (self : GCSImageGallery) (clock : Z -> Z)
    : result (list ImageInfo) :=
  blobs ← list_blobs (client self) (bucket_name self) (folder_path self);
  images ← collect self clock blobs [] 0;
  Ok (sort filename images).

(** Line 129. *)
Definition total_pages {A} (images : list A) (images_per_page : Z) : result Z :=
  floordiv (len images + images_per_page - 1) images_per_page.

Definition NL : string := String "010"%char EmptyString.

(** The text of the template that [html_template] does not write out: what
    comes before line 137, and what lies between and after the lines 137,
    396-397, 406, 410 and 435-436, which hold the nine expressions. *)
Record TemplateText : Type := mk_TemplateText {
  text_head : string;
  text_style : string;
  text_controls : string;
  text_pagination : string;
  text_modal : string;
  text_script : string
}.

(** [html_template], lines 131-616. *)
Definition html_template (t : TemplateText) : list Jinja.node :=
  [ Jinja.Data (text_head t);
    Jinja.Data "<title>"; Jinja.Output "title" []; Jinja.Data "</title>";
    Jinja.Data (text_style t);
    Jinja.Data "<h1>"; Jinja.Output "title" []; Jinja.Data ("</h1>" +:+ NL);
    Jinja.Data "        <p>"; Jinja.Output "total_images" [];
    Jinja.Data " images sorted by name ("; Jinja.Output "images_per_page" [];
    Jinja.Data " per page for fast loading)</p>";
    Jinja.Data (text_controls t);
    Jinja.Data ">Showing "; Jinja.Output "images_per_page" [];
    Jinja.Data " of "; Jinja.Output "total_images" []; Jinja.Data "</span>";
    Jinja.Data (text_pagination t);
    Jinja.Data ">"; Jinja.Output "total_pages" []; Jinja.Data "</span></span>";
    Jinja.Data (text_modal t);
    Jinja.Data "const imageData = "; Jinja.Output "images_json" ["safe"%string];
    Jinja.Data (";" +:+ NL);
    Jinja.Data "        const imagesPerPage = "; Jinja.Output "images_per_page" [];
    Jinja.Data ";";
    Jinja.Data (text_script t) ].

(** The two [replace] calls of lines 627 and 630: every backslash becomes
    two backslashes, then every double quote becomes a backslash and a
    double quote. *)
Definition escape_for_js (s : string) : string :=
  replace QUOTE (String BACKSLASH (String QUOTE EmptyString))
    (replace BACKSLASH (String BACKSLASH (String BACKSLASH EmptyString)) s).

(** Lines 622-637: the dict appended to [images_for_js] for [img]. *)
Definition image_for_js (img : ImageInfo) : Json.value :=
  let public_url :=
    match public_url img with
    | String _ _ => escape_for_js (public_url img)
    | EmptyString => public_url img
    end in
  Json.Obj
    [ ("filename"%string,
       Json.Str (match filename img with
                 | String _ _ => escape_for_js (filename img)
                 | EmptyString => ""
                 end));
      ("public_url"%string, Json.Str (or_else (Some public_url) ""));
      ("size"%string,
       match size img with Some n => Json.Int n | None => Json.Null end);
      ("created"%string,
       match created img with
       | Some dt => Json.Str (isoformat dt)
       | None => Json.Null
       end);
      ("content_type"%string, Json.Str (or_else (content_type img) "image/unknown"));
      ("date_str"%string, Json.Str (or_else (date_str img) ""));
      ("date_display"%string,
       Json.Str (or_else (Some (date_display img)) "Unknown Date")) ].

Definition images_for_js (images : list ImageInfo) : list Json.value :=
  map image_for_js images.

(** The keyword arguments of [template.render], lines 639-645. *)
Definition render_context (images : list ImageInfo) (images_per_page : Z)
    (title : string) (total_pages : Z) : gmap string Jinja.val :=
  {[ "title"%string := Jinja.VStr title;
     "total_images"%string := Jinja.VInt (len images);
     "images_per_page"%string := Jinja.VInt images_per_page;
     "total_pages"%string := Jinja.VInt total_pages;
     "images_json"%string :=
       Jinja.VStr (Json.dumps (Json.Arr (images_for_js images))) ]}.

Definition html_content (t : TemplateText) (images : list ImageInfo)
    (images_per_page : Z) (title : string) (total_pages : Z) : string :=
  Jinja.render (html_template t)
    (render_context images images_per_page title total_pages).

Definition generate_html_gallery (t : TemplateText) (self : GCSImageGallery)
    (images : list ImageInfo) (output_file : string) (images_per_page : Z)
    (title : string) (fs : FileSystem) : result FileSystem :=
  total_pages ← total_pages images images_per_page;
  write_file output_file
    (html_content t images images_per_page title total_pages) fs.

(** *** main *)

(** The result of [parser.parse_args()]; [--per-page] is declared with
    [type=int] and no further check. *)
Record Args : Type := mk_Args {
  arg_project : string;
  arg_bucket : string;
  arg_folder : string;
  arg_output : string;
  arg_per_page : Z;
  arg_title : string
}.

(** Lines 665-686 of [main], what it does once [parser.parse_args()] has
    returned [args]: the exit status of the process and the files it
    leaves.  Both the empty listing and any exception end in [sys.exit(1)].
    The exits of [parse_args] itself, at line 663 and outside the [try],
    come before it. *)
Definition main (t : TemplateText) (storage : Client) (clock : Z -> Z)
    (args : Args) (fs : FileSystem) : Z * FileSystem :=
  let gallery := init storage (arg_project args) (arg_bucket args) (arg_folder args) in
  match get_image_list gallery clock with
  | Raise _ => (1, fs)
  | Ok [] => (1, fs)
  | Ok images =>
      match generate_html_gallery t gallery images (arg_output args)
              (arg_per_page args) (arg_title args) fs with
      | Ok fs' => (0, fs')
      | Raise _ => (1, fs)
      end
  end.

End Gallery.


(* ===================================================================== *)
(** ** Vocabulary of the specification *)
(* ===================================================================== *)

Module Spec.
Import Py.

Definition all_digits (s : string) : bool :=
  forallb Datetime.is_digit (list_ascii_of_string s).

(** [int(s)] for a string of digits. *)
Definition int_of_digits (s : string) : Z :=
  fold_left (fun n c => 10 * n + Datetime.digit_val c) (list_ascii_of_string s) 0.

(** The fields YYYY, MM and DD of an eight-digit group. *)
Definition ymd (d : string) : Z * Z * Z :=
  (int_of_digits (substring 0 4 d),
   int_of_digits (substring 4 2 d),
   int_of_digits (substring 6 2 d)).

(** The eight digits name a day of the calendar. *)
Definition is_calendar_date (d : string) : bool :=
  let '(y, m, dd) := ymd d in Datetime.valid_date y m dd.

(** The date rendered as zero-padded day and full month name. *)
Definition day_and_month (d : string) : string :=
  let '(_, m, dd) := ymd d in
  zero_pad 2 dd +:+ " " +:+ Datetime.month_name m.

(** At offset [i] the string [s] reads [DT] and then the eight digits [d]. *)
Definition DT_group_at (s : string) (i : nat) (d : string) : Prop :=
  ∃ pre post : string,
    s = pre +:+ "DT" +:+ d +:+ post
    ∧ String.length pre = i
    ∧ String.length d = 8%nat
    ∧ all_digits d = true.

(** [s] comes no later than [t] in the lexicographic order on code
    points: [s] is a prefix of [t], or at the first position where they
    differ the character of [s] is the smaller one. *)
Definition lex_le (s t : string) : Prop :=
  (∃ u : string, t = s +:+ u)
  ∨ (∃ (p : string) (a b : ascii) (s' t' : string),
       s = p +:+ String a s' ∧ t = p +:+ String b t' ∧ code a < code b).

(** [p] is the least number of pages of [per_page] images that hold [n]
    images: the ceiling of [n / per_page]. *)
Definition is_ceiling (n per_page p : Z) : Prop :=
  n <= p * per_page ∧ ∀ q : Z, n <= q * per_page → p <= q.

(** [d] is the group of the leftmost place of [s] that reads [DT] and
    eight digits. *)
Definition first_DT_group (s d : string) : Prop :=
  ∃ i : nat, DT_group_at s i d
             ∧ ∀ (j : nat) (d' : string), DT_group_at s j d' → (i <= j)%nat.

(** The character [c] occurs in [s]. *)
Definition occurs (c : ascii) (s : string) : bool :=
  existsb (Ascii.eqb c) (list_ascii_of_string s).

(** The image blobs of a listing, in listing order. *)
Definition image_blobs (blobs : list Gallery.Blob) : list Gallery.Blob :=
  filter (fun b => Gallery.is_image (Gallery.blob_name b) = true) blobs.

(** [entries] are the entries collected from the listing [blobs]: one for
    each image blob, in listing order, each built from the blob, its
    reloaded metadata and the clock reading of its turn. *)
Definition collected_from (self : Gallery.GCSImageGallery) (clock : Z -> Z)
    (count : Z) (blobs : list Gallery.Blob)
    (entries : list Gallery.ImageInfo) : Prop :=
  length entries = length (image_blobs blobs)
  ∧ ∀ (k : nat) (b : Gallery.Blob),
      image_blobs blobs !! k = Some b →
      ∃ meta : Gallery.Metadata,
        Gallery.blob_reload b = Ok meta
        ∧ entries !! k
          = Some (Gallery.image_info self (clock (count + Z.of_nat k)) b meta).

(** The page: the text of the template with the five values written at
    the places of its nine expressions. *)
Definition page_text (t : Gallery.TemplateText) (title : string)
    (total_images images_per_page total_pages : Z) (images_json : string)
    : string :=
  Gallery.text_head t +:+ "<title>" +:+ title +:+ "</title>"
  +:+ Gallery.text_style t
  +:+ "<h1>" +:+ title +:+ "</h1>" +:+ Gallery.NL
  +:+ "        <p>" +:+ str_of_int total_images +:+ " images sorted by name ("
  +:+ str_of_int images_per_page +:+ " per page for fast loading)</p>"
  +:+ Gallery.text_controls t
  +:+ ">Showing " +:+ str_of_int images_per_page +:+ " of "
  +:+ str_of_int total_images +:+ "</span>"
  +:+ Gallery.text_pagination t
  +:+ ">" +:+ str_of_int total_pages +:+ "</span></span>"
  +:+ Gallery.text_modal t
  +:+ "const imageData = " +:+ images_json +:+ ";" +:+ Gallery.NL
  +:+ "        const imagesPerPage = " +:+ str_of_int images_per_page +:+ ";"
  +:+ Gallery.text_script t.

(** [s] with a backslash put before each of its double quotes and each of
    its backslashes. *)
Fixpoint backslashed (s : string) : string :=
  match s with
  | EmptyString => EmptyString
  | String c r =>
      if Ascii.eqb c QUOTE || Ascii.eqb c BACKSLASH
      then String BACKSLASH (String c (backslashed r))
      else String c (backslashed r)
  end.

(** The keys of an element of the array of the page. *)
Definition element_keys : list string :=
  [ "filename"; "public_url"; "size"; "created"; "content_type"; "date_str";
    "date_display" ]%string.

(** The element [e] of the array of the page is the one of the image [img]:
    it has the seven keys and no other, and under each key the field of
    [img], a string with its quotes and backslashes backslashed, a missing
    value as its default or as null. *)
Definition element_of (img : Gallery.ImageInfo) (e : Json.value) : Prop :=
  Json.get "filename" e = Some (Json.Str (backslashed (Gallery.filename img)))
  ∧ Json.get "public_url" e
    = Some (Json.Str (backslashed (Gallery.public_url img)))
  ∧ Json.get "size" e
    = Some (match Gallery.size img with
            | Some n => Json.Int n
            | None => Json.Null
            end)
  ∧ Json.get "created" e
    = Some (match Gallery.created img with
            | Some dt => Json.Str (Datetime.isoformat dt)
            | None => Json.Null
            end)
  ∧ Json.get "content_type" e
    = Some (Json.Str (match Gallery.content_type img with
                      | Some (String c r) => String c r
                      | _ => "image/unknown"
                      end))
  ∧ Json.get "date_str" e
    = Some (Json.Str (match Gallery.date_str img with
                      | Some d => d
                      | None => EmptyString
                      end))
  ∧ Json.get "date_display" e
    = Some (Json.Str (match Gallery.date_display img with
                      | String c r => String c r
                      | EmptyString => "Unknown Date"
                      end))
  ∧ ∀ (k : string) (v : Json.value), Json.get k e = Some v → k ∈ element_keys.

End Spec.

(* ===================================================================== *)
(** ** Definitions used by the proofs *)
(* ===================================================================== *)

Module Aux.
Import Py.

(** What may follow a JSON number in a text: nothing, or a character that
    is neither a digit nor the start of a fraction or an exponent. *)
Definition follow_ok (rest : string) : bool :=
  match rest with
  | EmptyString => true
  | String c _ => negb (Datetime.is_digit c) && negb (Json.starts_fraction rest)
  end.

(** A value is read through its first character, which is never white
    space and never a closing bracket. *)
Definition opens_value (c : ascii) : bool :=
  negb (Json.is_ws c) && negb (Ascii.eqb c "]") && negb (Ascii.eqb c "}").

Definition elems_text (l : list Json.value) : string :=
  String.concat ", " (map Json.dumps l).

Definition member_text (kv : string * Json.value) : string :=
  Json.encode_string kv.1 +:+ ": " +:+ Json.dumps kv.2.

Definition members_text (items : list (string * Json.value)) : string :=
  String.concat ", " (map member_text items).

(** The text of [v], followed by anything a value may be followed by,
    reads back as [v] and leaves the rest; the length of the text is fuel
    enough. *)
Definition reads_back (v : Json.value) : Prop :=
  ∀ (n : nat) (rest : string),
    follow_ok rest = true →
    (String.length (Json.dumps v) <= n)%nat →
    Json.parse_value n (Json.dumps v +:+ rest) = Some (v, rest).

Definition digit_chars : list ascii :=
  ["0"; "1"; "2"; "3"; "4"; "5"; "6"; "7"; "8"; "9"]%char.

(** What [match_md] must answer on four digits MMDD: the two fields and
    nothing left when both are in range, and otherwise no match or a match
    that leaves text behind. *)
Definition md_expected (m1 m2 d1 d2 : ascii) : bool :=
  let M := 10 * Datetime.digit_val m1 + Datetime.digit_val m2 in
  let D := 10 * Datetime.digit_val d1 + Datetime.digit_val d2 in
  let in_range := (1 <=? M) && (M <=? 12) && (1 <=? D) && (D <=? 31) in
  match Datetime.match_md
          (String m1 (String m2 (String d1 (String d2 EmptyString)))) with
  | Some (m, d, EmptyString) => (m =? M) && (d =? D) && in_range
  | _ => negb in_range
  end.

(** [x] comes no later than [y] in the order of their keys. *)
Definition key_le {A : Type} (key : A -> string) (x y : A) : Prop :=
  String.leb (key x) (key y) = true.

End Aux.

(* ===================================================================== *)
(** ** Sample buckets *)
(* ===================================================================== *)

Module Sample.
Import Py Datetime Gallery.

Definition created_at : datetime := mk_datetime 2025 8 1 12 30 0 0 (Some 0).

Definition meta : Metadata :=
  mk_Metadata (Some 2048) (Some created_at) (Some created_at)
    (Some "image/jpeg"%string) (Some "1B2M2Y8AsgTpgAmY7PhCfg=="%string).

(** A signer with a key: the URL carries the expiration and the method. *)
Definition signer (name : string) (expiration : Z) (method : string)
    : result string :=
  Ok ("https://signed.example/" +:+ name +:+ "?Expires=" +:+ str_of_int expiration
      +:+ "&Method=" +:+ method).

Definition no_key (expiration : Z) (method : string) : result string :=
  Raise SigningError.

Definition blob (name : string) : Blob := mk_Blob name (Ok meta) (signer name).

Definition clock (k : Z) : Z := 1754051400 + k.

Definition text : TemplateText :=
  mk_TemplateText "<html><head>" "</head><body>" "<div><span"
    "<div><span><span" "</div><script>" "</script></body></html>".

Definition disk : FileSystem := mk_FileSystem ∅ (fun _ => true).

(** A bucket with three images and a text file. *)
Definition photos : Client :=
  mk_Client {[ "photos"%string :=
    [ blob "trip/b_DT20250801_1.JPG"; blob "trip/notes.txt";
      blob "trip/a_DT20250802_2.png"; blob "trip/c.gif" ] ]}.

Definition photos_gallery : GCSImageGallery := init photos "proj" "photos" "trip".

(** What the listing of that bucket returns. *)
Definition photos_images : list ImageInfo :=
  [ image_info photos_gallery (clock 1) (blob "trip/a_DT20250802_2.png") meta;
    image_info photos_gallery (clock 0) (blob "trip/b_DT20250801_1.JPG") meta;
    image_info photos_gallery (clock 2) (blob "trip/c.gif") meta ].

Definition photos_args (per_page : Z) : Args :=
  mk_Args "proj" "photos" "trip" "gallery.html" per_page "GCS Image Gallery".

(** A bucket whose one image carries digits that are no calendar date. *)
Definition undated : Client :=
  mk_Client {[ "undated"%string := [ blob "x_DT20250230.jpg" ] ]}.

Definition undated_gallery : GCSImageGallery := init undated "proj" "undated" "".

Definition undated_image : ImageInfo :=
  image_info undated_gallery (clock 0) (blob "x_DT20250230.jpg") meta.

(** A bucket whose one image has a double quote in its name and cannot be
    signed. *)
Definition quoted_name : string := "a" +:+ String QUOTE "b.jpg".

Definition quoted : Client :=
  mk_Client {[ "quoted"%string := [ mk_Blob quoted_name (Ok meta) no_key ] ]}.

Definition quoted_gallery : GCSImageGallery := init quoted "proj" "quoted" "".

Definition quoted_image : ImageInfo :=
  image_info quoted_gallery (clock 0) (mk_Blob quoted_name (Ok meta) no_key) meta.

(** The name as the page's script reads it back: with a backslash before
    the quote. *)
Definition quoted_name_read_back : string :=
  "a" +:+ String BACKSLASH (String QUOTE "b.jpg").

(** An entry whose size was never loaded. *)
Definition sizeless : ImageInfo :=
  mk_ImageInfo "c.gif" "c.gif" "https://storage.googleapis.com/photos/c.gif"
    None (Some created_at) None (Some "image/gif"%string) None None
    "Unknown Date".

End Sample.

(* ===================================================================== *)
(** ** Vocabulary of the further properties *)
(* ===================================================================== *)

Module Further.
Import Py.

(** [sub] occurs in [s] as a run of consecutive characters. *)
Definition contains (s sub : string) : Prop :=
  ∃ pre post : string, s = pre +:+ sub +:+ post.

(** [n] slashes. *)
Fixpoint slashes (n : nat) : string :=
  match n with
  | O => EmptyString
  | S n' => String SLASH (slashes n')
  end.

(** A printable ASCII character: space to tilde. *)
Definition printable (c : ascii) : bool := (32 <=? code c) && (code c <=? 126).

Definition all_printable (s : string) : bool :=
  forallb printable (list_ascii_of_string s).

(** A string of printable ASCII characters with no double quote and no
    backslash. *)
Definition plain (s : string) : bool :=
  all_printable s && negb (Spec.occurs QUOTE s) && negb (Spec.occurs BACKSLASH s).

(** The first character of [s] lies between [lo] and [hi]. *)
Definition starts_in (lo hi : ascii) (s : string) : bool :=
  match s with
  | String c _ => (code lo <=? code c) && (code c <=? code hi)
  | EmptyString => false
  end.

(** Two entries agree on the seven fields that are written to the page. *)
Definition same_page_fields (a b : Gallery.ImageInfo) : Prop :=
  Gallery.filename a = Gallery.filename b
  ∧ Gallery.public_url a = Gallery.public_url b
  ∧ Gallery.size a = Gallery.size b
  ∧ Gallery.created a = Gallery.created b
  ∧ Gallery.content_type a = Gallery.content_type b
  ∧ Gallery.date_str a = Gallery.date_str b
  ∧ Gallery.date_display a = Gallery.date_display b.

(** The gallery [self] looking at a service in which the objects of its
    bucket are [objs]. *)
Definition with_objects (self : Gallery.GCSImageGallery)
    (objs : list Gallery.Blob) : Gallery.GCSImageGallery :=
  Gallery.mk_GCSImageGallery (Gallery.project_id self) (Gallery.bucket_name self)
    (Gallery.folder_path self)
    (Gallery.mk_Client
       (<[Gallery.bucket_name self := objs]> (Gallery.buckets (Gallery.client self)))).

(** [x] comes before [y] in [l]. *)
Definition before {A : Type} (l : list A) (x y : A) : Prop :=
  ∃ i j : nat, (i < j)%nat ∧ l !! i = Some x ∧ l !! j = Some y.

End Further.

(* ===================================================================== *)
(** ** More sample buckets *)
(* ===================================================================== *)

Module Cases.
Import Py Datetime Gallery.

(** A bucket with a capital, a small letter, and the same file name in two
    folders, in the order of its listing. *)
Definition mixed : Client :=
  mk_Client {[ "mixed"%string :=
    [ Sample.blob "Zebra.jpg"; Sample.blob "a/x.png";
      Sample.blob "apple.jpg"; Sample.blob "b/x.png" ] ]}.

Definition mixed_gallery : GCSImageGallery := init mixed "proj" "mixed" "".

(** What the listing of that bucket returns. *)
Definition mixed_images : list ImageInfo :=
  [ image_info mixed_gallery (Sample.clock 0) (Sample.blob "Zebra.jpg") Sample.meta;
    image_info mixed_gallery (Sample.clock 2) (Sample.blob "apple.jpg") Sample.meta;
    image_info mixed_gallery (Sample.clock 1) (Sample.blob "a/x.png") Sample.meta;
    image_info mixed_gallery (Sample.clock 3) (Sample.blob "b/x.png") Sample.meta ].

(** An entry with another object name, update time and hash, and the same
    seven fields of the page. *)
Definition moved (img : ImageInfo) : ImageInfo :=
  mk_ImageInfo ("archive/" +:+ name img) (filename img) (public_url img)
    (size img) (created img) None (content_type img) None (date_str img)
    (date_display img).

(** An object that is listed and gone when it is reloaded. *)
Definition gone (name : string) : Blob :=
  mk_Blob name (Raise NotFound) (Sample.signer name).

(** An object whose metadata cannot be read for another reason. *)
Definition unreadable (name : string) : Blob :=
  mk_Blob name (Raise GoogleAPIError) (Sample.signer name).

(** A bucket in which a text file and two images cannot be reloaded. *)
Definition fading_objects : list Blob :=
  [ Sample.blob "a.png"; unreadable "notes.txt"; gone "b.png";
    unreadable "c.png" ].

Definition fading : Client := mk_Client {[ "fading"%string := fading_objects ]}.

Definition fading_gallery : GCSImageGallery := init fading "proj" "fading" "".

End Cases.

(* ===================================================================== *)
(** * Verification *)
(* ===================================================================== *)

Import Py Datetime Gallery Spec Aux.

(** ** Strings *)

Lemma str_app_nil_l (s : string) : "" +:+ s = s.
Proof. reflexivity. Qed.

Lemma str_app_cons (c : ascii) (s t : string) :
  String c s +:+ t = String c (s +:+ t).
Proof. reflexivity. Qed.

Lemma str_app_nil_r (s : string) : s +:+ "" = s.
Proof. induction s as [|c s IH]; [done | by rewrite str_app_cons, IH]. Qed.

Lemma str_app_assoc (s t u : string) : (s +:+ t) +:+ u = s +:+ (t +:+ u).
Proof. induction s as [|c s IH]; [done | by rewrite !str_app_cons, IH]. Qed.

Lemma str_length_app (s t : string) :
  String.length (s +:+ t) = (String.length s + String.length t)%nat.
Proof. induction s as [|c s IH]; [done | by rewrite str_app_cons; simpl; rewrite IH]. Qed.

Lemma parse_string_body_encode_char (c : ascii) (tail : string) :
  Json.parse_string_body (Json.encode_char c +:+ tail)
  = Json.cons_fst c <$> Json.parse_string_body tail.
Proof. destruct c as [[] [] [] [] [] [] [] []]; reflexivity. Qed.

Lemma parse_string_body_encode_chars (s rest : string) :
  Json.parse_string_body (Json.encode_chars s +:+ String QUOTE rest) = Some (s, rest).
Proof.
  induction s as [|c s IH]; simpl; [done|].
  rewrite str_app_assoc, parse_string_body_encode_char, IH. done.
Qed.

(** ** Reading numbers *)

Lemma span_digits_follow (rest : string) :
  follow_ok rest = true → Json.span_digits rest = (EmptyString, rest).
Proof.
  destruct rest as [|c r]; [done|]. simpl.
  intros [Hd _]%andb_true_iff. apply negb_true_iff in Hd. by rewrite Hd.
Qed.

Lemma span_digits_uint (u : Decimal.uint) (rest : string) :
  follow_ok rest = true →
  Json.span_digits (NilEmpty.string_of_uint u +:+ rest)
  = (NilEmpty.string_of_uint u, rest).
Proof.
  intros Hf. induction u as [|u IH|u IH|u IH|u IH|u IH|u IH|u IH|u IH|u IH|u IH];
    [by apply span_digits_follow|..];
    cbn [NilEmpty.string_of_uint]; rewrite str_app_cons;
    cbn [Json.span_digits]; rewrite IH; reflexivity.
Qed.

Lemma unorm_to_uint (p : positive) : Decimal.unorm (Pos.to_uint p) = Pos.to_uint p.
Proof.
  rewrite <- (DecimalPos.Unsigned.to_of (Pos.to_uint p)).
  by rewrite DecimalPos.Unsigned.of_to.
Qed.

Lemma to_uint_no_leading_zero (p : positive) (u : Decimal.uint) :
  Pos.to_uint p ≠ Decimal.D0 u.
Proof.
  intros E. pose proof (unorm_to_uint p) as Hn. rewrite E in Hn.
  assert (Hu : u ≠ Decimal.Nil).
  { intros ->. by apply (DecimalPos.Unsigned.to_uint_nonzero p). }
  pose proof (DecimalFacts.nb_digits_unorm u Hu) as Hle.
  change (Decimal.unorm (Decimal.D0 u)) with (Decimal.unorm u) in Hn.
  rewrite Hn in Hle. simpl in Hle. lia.
Qed.

Lemma to_uint_head (p : positive) :
  ∃ c s, NilEmpty.string_of_uint (Pos.to_uint p) = String c s
         ∧ Ascii.eqb c "0" = false ∧ Ascii.eqb c "-" = false.
Proof.
  pose proof (to_uint_no_leading_zero p) as Hz.
  pose proof (DecimalPos.Unsigned.to_uint_nonnil p) as Hnil.
  destruct (Pos.to_uint p) as [|u|u|u|u|u|u|u|u|u|u];
    [done|by exfalso; eapply Hz|..]; by eexists _, _.
Qed.

Lemma parse_digits_uint (u : Decimal.uint) (c : ascii) (s rest : string) :
  NilEmpty.string_of_uint u = String c s →
  (Ascii.eqb c "0" = true → s = EmptyString) →
  follow_ok rest = true →
  Json.parse_digits (NilEmpty.string_of_uint u +:+ rest) = Some (Z.of_uint u, rest).
Proof.
  intros Hs Hz Hf. unfold Json.parse_digits.
  rewrite span_digits_uint by done. rewrite Hs.
  assert (Hnil : u ≠ Decimal.Nil) by (by intros ->).
  assert (Hlead : Ascii.eqb c "0" && negb (String.eqb s "") = false).
  { destruct (Ascii.eqb c "0"); [|done]. by rewrite Hz. }
  rewrite Hlead.
  assert (Hfr : Json.starts_fraction rest = false).
  { destruct rest; [done|]. apply andb_true_iff in Hf as [_ H].
    by apply negb_true_iff in H. }
  rewrite Hfr, <- Hs.
  pose proof (NilZero.usu u Hnil) as Husu.
  unfold NilZero.string_of_uint in Husu.
  destruct u; try done; by rewrite Husu.
Qed.

Lemma str_of_int_pos (p : positive) :
  str_of_int (Z.pos p) = NilEmpty.string_of_uint (Pos.to_uint p).
Proof.
  unfold str_of_int. simpl. unfold NilZero.string_of_uint.
  pose proof (DecimalPos.Unsigned.to_uint_nonnil p).
  by destruct (Pos.to_uint p).
Qed.

Lemma str_of_int_neg (p : positive) :
  str_of_int (Z.neg p) = String "-" (NilEmpty.string_of_uint (Pos.to_uint p)).
Proof.
  unfold str_of_int. simpl. unfold NilZero.string_of_uint.
  pose proof (DecimalPos.Unsigned.to_uint_nonnil p).
  by destruct (Pos.to_uint p).
Qed.

Lemma of_uint_to_uint (p : positive) : Z.of_uint (Pos.to_uint p) = Z.pos p.
Proof. unfold Z.of_uint. by rewrite DecimalPos.Unsigned.of_to. Qed.

Lemma parse_number_str_of_int (z : Z) (rest : string) :
  follow_ok rest = true →
  Json.parse_number (str_of_int z +:+ rest) = Some (z, rest).
Proof.
  intros Hf. destruct z as [|p|p].
  - change (str_of_int 0) with (NilEmpty.string_of_uint (Decimal.D0 Decimal.Nil)).
    unfold Json.parse_number. cbn [NilEmpty.string_of_uint].
    rewrite str_app_cons. cbn [Ascii.eqb Bool.eqb]. rewrite <- str_app_cons.
    by apply (parse_digits_uint (Decimal.D0 Decimal.Nil) "0" "").
  - rewrite str_of_int_pos.
    destruct (to_uint_head p) as (c & s & Hs & Hz & Hm).
    pose proof (parse_digits_uint (Pos.to_uint p) c s rest Hs) as Hp.
    rewrite of_uint_to_uint in Hp. rewrite <- Hp; [|by rewrite Hz|done].
    unfold Json.parse_number. rewrite Hs, str_app_cons. by rewrite Hm.
  - rewrite str_of_int_neg.
    destruct (to_uint_head p) as (c & s & Hs & Hz & Hm).
    pose proof (parse_digits_uint (Pos.to_uint p) c s rest Hs) as Hp.
    rewrite of_uint_to_uint in Hp.
    unfold Json.parse_number. rewrite str_app_cons. cbn [Ascii.eqb Bool.eqb].
    rewrite Hp; [done|by rewrite Hz|done].
Qed.

(** The first character of [str(n)] is a digit or the minus sign. *)
Lemma str_of_int_head (z : Z) :
  ∃ c s, str_of_int z = String c s
         ∧ (Datetime.is_digit c = true ∨ c = "-"%char).
Proof.
  destruct z as [|p|p].
  - eexists _, _. split; [reflexivity|by left].
  - rewrite str_of_int_pos.
    pose proof (DecimalPos.Unsigned.to_uint_nonnil p).
    destruct (Pos.to_uint p); try done; eexists _, _; (split; [done|by left]).
  - rewrite str_of_int_neg. eexists _, _. split; [done|by right].
Qed.

(** ** Reading values *)

Lemma value_ind_nested (P : Json.value → Prop) :
  P Json.Null → (∀ b, P (Json.Bool b)) → (∀ n, P (Json.Int n)) →
  (∀ s, P (Json.Str s)) →
  (∀ l, Forall P l → P (Json.Arr l)) →
  (∀ items, Forall (fun kv => P kv.2) items → P (Json.Obj items)) →
  ∀ v, P v.
Proof.
  intros HN HB HI HS HA HO. fix IH 1. intros [|b|n|s|l|items].
  - exact HN.
  - apply HB.
  - apply HI.
  - apply HS.
  - apply HA. induction l as [|x l IHl]; constructor; [apply IH|exact IHl].
  - apply HO. induction items as [|[k x] items IHl]; constructor;
      [apply IH|exact IHl].
Qed.

Lemma concat_cons2 (sep x y : string) (l : list string) :
  String.concat sep (x :: y :: l) = x +:+ sep +:+ String.concat sep (y :: l).
Proof. reflexivity. Qed.

Lemma dumps_head (v : Json.value) :
  ∃ c s, Json.dumps v = String c s ∧ opens_value c = true.
Proof.
  destruct v as [|[]|n|s|l|items]; try by eexists _, _.
  destruct (str_of_int_head n) as (c & s & Hs & Hc).
  exists c, s. split; [done|].
  destruct Hc as [Hc| ->]; [|done].
  revert Hc. destruct c as [[] [] [] [] [] [] [] []]; done.
Qed.

Lemma parse_value_ws (n : nat) (s : string) :
  Json.parse_value n (String " " s) = Json.parse_value n s.
Proof. destruct n; reflexivity. Qed.

Lemma parse_elements_ws (n : nat) (s : string) :
  Json.parse_elements n (String " " s) = Json.parse_elements n s.
Proof. destruct n; [done|]. simpl. by rewrite parse_value_ws. Qed.

Lemma parse_members_ws (n : nat) (s : string) :
  Json.parse_members n (String " " s) = Json.parse_members n s.
Proof. destruct n; reflexivity. Qed.

Lemma parse_value_number (n : nat) (c : ascii) (s : string) :
  Datetime.is_digit c = true ∨ c = "-"%char →
  Json.parse_value (S n) (String c s)
  = '(z, rest) ← Json.parse_number (String c s); Some (Json.Int z, rest).
Proof.
  destruct c as [[] [] [] [] [] [] [] []]; intros [H|H]; try done.
Qed.

Lemma parse_value_array (n : nat) (c : ascii) (s : string) :
  opens_value c = true →
  Json.parse_value (S n) (String "[" (String c s))
  = '(l, rest) ← Json.parse_elements n (String c s); Some (Json.Arr l, rest).
Proof.
  unfold opens_value. intros [[Hw Hb]%andb_true_iff _]%andb_true_iff.
  apply negb_true_iff in Hw, Hb. simpl. by rewrite Hw, Hb.
Qed.

Lemma parse_value_object (n : nat) (s : string) :
  Json.parse_value (S n) (String "{" (String QUOTE s))
  = '(m, rest) ← Json.parse_members n (String QUOTE s); Some (Json.Obj m, rest).
Proof. reflexivity. Qed.

Lemma elems_text_one (x : Json.value) : elems_text [x] = Json.dumps x.
Proof. reflexivity. Qed.

Lemma elems_text_cons (x y : Json.value) (l : list Json.value) :
  elems_text (x :: y :: l) = Json.dumps x +:+ ", " +:+ elems_text (y :: l).
Proof. reflexivity. Qed.

Lemma members_text_one (kv : string * Json.value) :
  members_text [kv] = member_text kv.
Proof. reflexivity. Qed.

Lemma members_text_cons (kv kv' : string * Json.value)
    (items : list (string * Json.value)) :
  members_text (kv :: kv' :: items)
  = member_text kv +:+ ", " +:+ members_text (kv' :: items).
Proof. reflexivity. Qed.

Lemma parse_elements_last (n : nat) (t : string) (v : Json.value) (rest : string) :
  Json.parse_value n t = Some (v, String "]" rest) →
  Json.parse_elements (S n) t = Some ([v], rest).
Proof. intros H. simpl. by rewrite H. Qed.

Lemma parse_elements_more (n : nat) (t : string) (v : Json.value) (s : string) :
  Json.parse_value n t = Some (v, ", " +:+ s) →
  Json.parse_elements (S n) t
  = '(l, rest) ← Json.parse_elements n s; Some (v :: l, rest).
Proof.
  intros H. simpl. rewrite H. simpl.
  by rewrite str_app_cons, str_app_nil_l, parse_elements_ws.
Qed.

Lemma parse_members_last (n : nat) (k s : string) (v : Json.value) (rest : string) :
  Json.parse_value n s = Some (v, String "}" rest) →
  Json.parse_members (S n) (Json.encode_string k +:+ ": " +:+ s)
  = Some ([(k, v)], rest).
Proof.
  intros H. unfold Json.encode_string.
  rewrite str_app_cons, str_app_assoc, str_app_cons, str_app_nil_l.
  simpl. rewrite parse_string_body_encode_chars. simpl.
  rewrite str_app_cons, str_app_nil_l, parse_value_ws, H. done.
Qed.

Lemma parse_members_more (n : nat) (k s : string) (v : Json.value) (s' : string) :
  Json.parse_value n s = Some (v, ", " +:+ s') →
  Json.parse_members (S n) (Json.encode_string k +:+ ": " +:+ s)
  = '(m, rest) ← Json.parse_members n s'; Some ((k, v) :: m, rest).
Proof.
  intros H. unfold Json.encode_string.
  rewrite str_app_cons, str_app_assoc, str_app_cons, str_app_nil_l.
  simpl. rewrite parse_string_body_encode_chars. simpl.
  rewrite str_app_cons, str_app_nil_l, parse_value_ws, H. simpl.
  by rewrite str_app_cons, str_app_nil_l, parse_members_ws.
Qed.

Lemma encode_string_length (k : string) :
  String.length (Json.encode_string k) = S (S (String.length (Json.encode_chars k))).
Proof.
  unfold Json.encode_string. simpl. rewrite str_length_app. simpl. lia.
Qed.

Lemma parse_elements_text (x : Json.value) (l : list Json.value) :
  Forall reads_back (x :: l) →
  ∀ (n : nat) (rest : string),
    (String.length (elems_text (x :: l)) + 1 ≤ n)%nat →
    Json.parse_elements n (elems_text (x :: l) +:+ String "]" rest)
    = Some (x :: l, rest).
Proof.
  revert x. induction l as [|y l IH]; intros x Hall n rest Hn;
    apply Forall_cons in Hall as [Hx Hall].
  - rewrite elems_text_one in *.
    destruct n as [|n]; [lia|].
    apply parse_elements_last, Hx; [done|lia].
  - rewrite elems_text_cons in *.
    rewrite !str_length_app in Hn. simpl in Hn.
    destruct n as [|n]; [lia|].
    rewrite !str_app_assoc.
    erewrite parse_elements_more; last first.
    { apply Hx; [done|lia]. }
    rewrite (IH y Hall n rest) by lia. done.
Qed.

Lemma member_text_pair (k : string) (v : Json.value) :
  member_text (k, v) = Json.encode_string k +:+ ": " +:+ Json.dumps v.
Proof. reflexivity. Qed.

Lemma parse_members_text (kv : string * Json.value)
    (items : list (string * Json.value)) :
  Forall (fun kv => reads_back kv.2) (kv :: items) →
  ∀ (n : nat) (rest : string),
    (String.length (members_text (kv :: items)) + 1 ≤ n)%nat →
    Json.parse_members n (members_text (kv :: items) +:+ String "}" rest)
    = Some (kv :: items, rest).
Proof.
  revert kv. induction items as [|kv' items IH]; intros [k v] Hall n rest Hn;
    apply Forall_cons in Hall as [Hv Hall]; cbn [snd] in Hv.
  - rewrite members_text_one, member_text_pair in *.
    rewrite !str_length_app in Hn. cbn [String.length] in Hn.
    destruct n as [|n]; [lia|].
    rewrite !str_app_assoc.
    apply parse_members_last, Hv; [done|lia].
  - rewrite members_text_cons, member_text_pair in *.
    rewrite !str_length_app in Hn. cbn [String.length] in Hn.
    destruct n as [|n]; [lia|].
    rewrite !str_app_assoc.
    erewrite parse_members_more; last first.
    { apply Hv; [done|lia]. }
    rewrite (IH kv' Hall n rest) by lia. done.
Qed.

Lemma dumps_arr (l : list Json.value) :
  Json.dumps (Json.Arr l) = String "[" (elems_text l +:+ "]").
Proof. reflexivity. Qed.

Lemma dumps_obj (items : list (string * Json.value)) :
  Json.dumps (Json.Obj items) = String "{" (members_text items +:+ "}").
Proof. reflexivity. Qed.

Lemma elems_text_head (x : Json.value) (l : list Json.value) :
  ∃ c s, elems_text (x :: l) = String c s ∧ opens_value c = true.
Proof.
  destruct (dumps_head x) as (c & s & Hs & Hc).
  destruct l as [|y l].
  - rewrite elems_text_one. eauto.
  - rewrite elems_text_cons, Hs, str_app_cons. eauto.
Qed.

Lemma members_text_head (kv : string * Json.value)
    (items : list (string * Json.value)) :
  ∃ s, members_text (kv :: items) = String QUOTE s.
Proof.
  destruct kv as [k v]. destruct items as [|kv' items].
  - rewrite members_text_one, member_text_pair. unfold Json.encode_string.
    rewrite str_app_cons. eauto.
  - rewrite members_text_cons, member_text_pair. unfold Json.encode_string.
    rewrite !str_app_cons. eauto.
Qed.

Lemma dumps_reads_back (v : Json.value) : reads_back v.
Proof.
  induction v as [|b|z|s|l IH|items IH] using value_ind_nested;
    intros n rest Hf Hn.
  - destruct n; [simpl in Hn; lia|]. reflexivity.
  - destruct n; [destruct b; simpl in Hn; lia|]. by destruct b.
  - destruct (str_of_int_head z) as (c & s & Hs & Hc).
    simpl in *. destruct n; [rewrite Hs in Hn; simpl in Hn; lia|].
    pose proof (parse_number_str_of_int z rest Hf) as Hp.
    rewrite Hs, str_app_cons in *.
    by rewrite parse_value_number, Hp.
  - destruct n; [simpl in Hn; lia|].
    simpl. rewrite str_app_assoc, str_app_cons, str_app_nil_l.
    by rewrite parse_string_body_encode_chars.
  - rewrite dumps_arr in *. cbn [String.length] in Hn.
    rewrite str_length_app in Hn. cbn [String.length] in Hn.
    destruct n; [lia|].
    destruct l as [|x l]; [reflexivity|].
    pose proof (parse_elements_text x l IH n rest ltac:(lia)) as Hp.
    rewrite str_app_cons, str_app_assoc, str_app_cons, str_app_nil_l.
    destruct (elems_text_head x l) as (c & s' & Hs' & Hc).
    rewrite Hs', str_app_cons in *.
    by rewrite parse_value_array, Hp.
  - rewrite dumps_obj in *. cbn [String.length] in Hn.
    rewrite str_length_app in Hn. cbn [String.length] in Hn.
    destruct n; [lia|].
    destruct items as [|kv items]; [reflexivity|].
    pose proof (parse_members_text kv items IH n rest ltac:(lia)) as Hp.
    rewrite str_app_cons, str_app_assoc, str_app_cons, str_app_nil_l.
    destruct (members_text_head kv items) as (s' & Hs').
    rewrite Hs', str_app_cons in *.
    by rewrite parse_value_object, Hp.
Qed.

Theorem loads_dumps (v : Json.value) : Json.loads (Json.dumps v) = Some v.
Proof.
  unfold Json.loads.
  pose proof (dumps_reads_back v (String.length (Json.dumps v)) "" eq_refl
                ltac:(lia)) as H.
  rewrite str_app_nil_r in H. by rewrite H.
Qed.

(** ** The pattern [DT(\d{8})] *)

Lemma all_digits_cons (c : ascii) (s : string) :
  Spec.all_digits (String c s) = Datetime.is_digit c && Spec.all_digits s.
Proof. reflexivity. Qed.

Lemma digits_spec (n : nat) (s g : string) :
  Re.digits n s = Some g ↔
  ∃ post, s = g +:+ post ∧ String.length g = n ∧ Spec.all_digits g = true.
Proof.
  revert s g. induction n as [|n IH]; intros s g; simpl.
  - split.
    + intros [= <-]. by exists s.
    + intros (post & -> & Hl & _). by destruct g.
  - destruct s as [|c r].
    { split; [done|]. intros (post & E & Hl & _). by destruct g. }
    destruct (Datetime.is_digit c) eqn:Hc.
    + destruct (Re.digits n r) as [g'|] eqn:Hd; simpl.
      * apply IH in Hd as (post & -> & Hl & Ha). split.
        -- intros [= <-]. exists post. rewrite all_digits_cons, Hc, Ha.
           simpl. by rewrite Hl.
        -- intros (post' & E & Hl' & Ha'). destruct g as [|c' g]; [done|].
           rewrite str_app_cons in E. injection E as <- E.
           rewrite all_digits_cons in Ha'. apply andb_true_iff in Ha' as [_ Ha'].
           assert (Re.digits n (g' +:+ post) = Some g) as Hg.
           { apply IH. exists post'. simpl in Hl'. split_and!; [done|lia|done]. }
           assert (Re.digits n (g' +:+ post) = Some g') as Hg'.
           { apply IH. by exists post. }
           congruence.
      * split; [done|]. intros (post' & E & Hl' & Ha').
        destruct g as [|c' g]; [done|].
        rewrite str_app_cons in E. injection E as <- E.
        rewrite all_digits_cons in Ha'. apply andb_true_iff in Ha' as [_ Ha'].
        assert (Re.digits n r = Some g) as Hg; [|congruence].
        apply IH. exists post'. simpl in Hl'. split_and!; [done|lia|done].
    + split; [done|]. intros (post' & E & Hl' & Ha').
      destruct g as [|c' g]; [done|].
      rewrite str_app_cons in E. injection E as <- E.
      rewrite all_digits_cons, Hc in Ha'. done.
Qed.

Lemma match_DT_d8_spec (s d : string) :
  Re.match_DT_d8 s = Some d ↔ Spec.DT_group_at s 0 d.
Proof.
  unfold Re.match_DT_d8, Spec.DT_group_at. split.
  - destruct s as [|a [|b r]]; [done..|].
    destruct (Ascii.eqb a "D") eqn:Ha; [|done].
    destruct (Ascii.eqb b "T") eqn:Hb; [|done]. cbn [andb].
    apply Ascii.eqb_eq in Ha as ->. apply Ascii.eqb_eq in Hb as ->.
    intros (post & -> & Hl & Hd)%digits_spec.
    exists EmptyString, post. done.
  - intros (pre & post & -> & Hp & Hl & Hd).
    destruct pre; [|done]. rewrite str_app_nil_l, !str_app_cons, str_app_nil_l.
    rewrite !Ascii.eqb_refl. cbn [andb]. apply digits_spec. eauto.
Qed.

Lemma DT_group_at_cons (c : ascii) (s : string) (i : nat) (d : string) :
  Spec.DT_group_at (String c s) (S i) d ↔ Spec.DT_group_at s i d.
Proof.
  unfold Spec.DT_group_at. split.
  - intros (pre & post & E & Hp & Hl & Hd).
    destruct pre as [|c' pre]; [done|].
    rewrite str_app_cons in E. injection E as <- ->.
    exists pre, post. simpl in Hp. split_and!; [done|lia|done..].
  - intros (pre & post & -> & Hp & Hl & Hd).
    exists (String c pre), post. simpl. split_and!; [done|lia|done..].
Qed.

Lemma DT_group_at_nil (i : nat) (d : string) : ¬ Spec.DT_group_at EmptyString i d.
Proof.
  intros (pre & post & E & Hp & Hl & Hd). destruct pre; [|done].
  by rewrite str_app_nil_l, !str_app_cons in E.
Qed.

(** [re.search] returns the group of the leftmost match, and [None] exactly
    when no offset has one. *)
Lemma search_DT_d8_spec (s : string) :
  match Re.search_DT_d8 s with
  | Some d =>
      ∃ i, Spec.DT_group_at s i d
           ∧ ∀ j d', Spec.DT_group_at s j d' → (i ≤ j)%nat ∧ (j = i → d' = d)
  | None => ∀ i d, ¬ Spec.DT_group_at s i d
  end.
Proof.
  induction s as [|c s IH].
  - simpl. intros i d. apply DT_group_at_nil.
  - cbn [Re.search_DT_d8].
    destruct (Re.match_DT_d8 (String c s)) as [d|] eqn:Hm.
    + exists O. split; [by apply match_DT_d8_spec|].
      intros j d' Hj. split; [lia|]. intros ->.
      apply match_DT_d8_spec in Hj. congruence.
    + destruct (Re.search_DT_d8 s) as [d|].
      * destruct IH as (i & Hi & Hmin). exists (S i).
        split; [by apply DT_group_at_cons|].
        intros [|j] d' Hj.
        { apply match_DT_d8_spec in Hj. congruence. }
        apply DT_group_at_cons in Hj. destruct (Hmin j d' Hj) as [? Heq].
        split; [lia|]. intros [= ->]. by apply Heq.
      * intros [|i] d Hd.
        { apply match_DT_d8_spec in Hd. congruence. }
        apply DT_group_at_cons in Hd. by apply (IH i d).
Qed.

Lemma search_DT_d8_digits (s d : string) :
  Re.search_DT_d8 s = Some d →
  String.length d = 8%nat ∧ Spec.all_digits d = true.
Proof.
  intros H. pose proof (search_DT_d8_spec s) as Hs. rewrite H in Hs.
  destruct Hs as (i & (pre & post & _ & _ & Hl & Hd) & _). done.
Qed.

(** ** [strptime] on eight digits *)

Lemma is_digit_cases (c : ascii) :
  Datetime.is_digit c = true → In c digit_chars.
Proof.
  destruct c as [[] [] [] [] [] [] [] []]; vm_compute; intros H;
    try discriminate H; intuition.
Qed.

Lemma md_expected_all :
  forallb (fun m1 => forallb (fun m2 => forallb (fun d1 => forallb (fun d2 =>
    md_expected m1 m2 d1 d2) digit_chars) digit_chars) digit_chars) digit_chars
  = true.
Proof. vm_compute. reflexivity. Qed.

Lemma md_expected_digits (m1 m2 d1 d2 : ascii) :
  Datetime.is_digit m1 = true → Datetime.is_digit m2 = true →
  Datetime.is_digit d1 = true → Datetime.is_digit d2 = true →
  md_expected m1 m2 d1 d2 = true.
Proof.
  intros H1%is_digit_cases H2%is_digit_cases H3%is_digit_cases H4%is_digit_cases.
  pose proof md_expected_all as Hall.
  rewrite forallb_forall in Hall. specialize (Hall m1 H1).
  rewrite forallb_forall in Hall. specialize (Hall m2 H2).
  rewrite forallb_forall in Hall. specialize (Hall d1 H3).
  rewrite forallb_forall in Hall. exact (Hall d2 H4).
Qed.

Lemma days_in_month_le (y m : Z) : Datetime.days_in_month y m <= 31.
Proof.
  unfold Datetime.days_in_month.
  repeat match goal with |- context [if ?b then _ else _] => destruct b end; lia.
Qed.

Lemma valid_date_range (y m d : Z) :
  Datetime.valid_date y m d = true →
  (1 <=? m) && (m <=? 12) && (1 <=? d) && (d <=? 31) = true.
Proof.
  unfold Datetime.valid_date. pose proof (days_in_month_le y m).
  rewrite !andb_true_iff, !Z.leb_le. lia.
Qed.

(** On eight digits YYYYMMDD, [strptime] succeeds exactly on the days of the
    calendar, with the fields read by position. *)
Lemma strptime_Ymd_eight_digits (d : string) :
  String.length d = 8%nat → Spec.all_digits d = true →
  Datetime.strptime_Ymd d
  = let '(y, m, dd) := Spec.ymd d in
    if Datetime.valid_date y m dd
    then Ok (Datetime.mk_datetime y m dd 0 0 0 0 None)
    else Raise ValueError.
Proof.
  intros Hl Hd.
  destruct d as [|y1 [|y2 [|y3 [|y4 [|m1 [|m2 [|d1 [|d2 [|]]]]]]]]]; try done.
  rewrite !all_digits_cons, !andb_true_iff in Hd.
  destruct Hd as (H1 & H2 & H3 & H4 & H5 & H6 & H7 & H8 & _).
  pose proof (md_expected_digits m1 m2 d1 d2 H5 H6 H7 H8) as Hmd.
  unfold md_expected in Hmd.
  unfold Datetime.strptime_Ymd, Datetime.match_Ymd, Datetime.directive_Y.
  rewrite H1, H2, H3, H4. cbn [andb mbind option_bind].
  unfold Spec.ymd, Spec.int_of_digits.
  cbn [substring list_ascii_of_string fold_left].
  set (Y := 1000 * Datetime.digit_val y1 + 100 * Datetime.digit_val y2
            + 10 * Datetime.digit_val y3 + Datetime.digit_val y4).
  replace (10 * (10 * (10 * (10 * 0 + Datetime.digit_val y1)
            + Datetime.digit_val y2) + Datetime.digit_val y3)
            + Datetime.digit_val y4) with Y by (unfold Y; lia).
  replace (10 * (10 * 0 + Datetime.digit_val m1) + Datetime.digit_val m2)
    with (10 * Datetime.digit_val m1 + Datetime.digit_val m2) by lia.
  replace (10 * (10 * 0 + Datetime.digit_val d1) + Datetime.digit_val d2)
    with (10 * Datetime.digit_val d1 + Datetime.digit_val d2) by lia.
  set (M := 10 * Datetime.digit_val m1 + Datetime.digit_val m2) in *.
  set (D := 10 * Datetime.digit_val d1 + Datetime.digit_val d2) in *.
  assert (Hout : (1 <=? M) && (M <=? 12) && (1 <=? D) && (D <=? 31) = false →
                 Datetime.valid_date Y M D = false).
  { intros Hr. destruct (Datetime.valid_date Y M D) eqn:Hv; [|done].
    apply valid_date_range in Hv. congruence. }
  destruct (Datetime.match_md _) as [[[m dd] rest]|]; cbn [mbind option_bind].
  - destruct rest as [|c rest].
    + apply andb_true_iff in Hmd as [[Hm Hdd]%andb_true_iff _].
      apply Z.eqb_eq in Hm as ->. apply Z.eqb_eq in Hdd as ->. done.
    + apply negb_true_iff in Hmd. by rewrite Hout.
  - apply negb_true_iff in Hmd. by rewrite Hout.
Qed.

(** ** Comparison of strs and [list.sort] *)

Lemma ascii_compare_code (a b : ascii) :
  Ascii.compare a b = (code a ?= code b).
Proof. unfold Ascii.compare, code. by rewrite N2Z.inj_compare. Qed.

Lemma leb_cons (a b : ascii) (s t : string) :
  String.leb (String a s) (String b t)
  = if code a <? code b then true
    else if code b <? code a then false
    else String.leb s t.
Proof.
  unfold String.leb. cbn [String.compare]. rewrite ascii_compare_code.
  destruct (Z.compare_spec (code a) (code b)) as [E|L|G].
  - rewrite E, Z.ltb_irrefl. done.
  - apply Z.ltb_lt in L as ->. done.
  - assert ((code a <? code b) = false) as -> by lia.
    apply Z.ltb_lt in G as ->. done.
Qed.

Lemma code_inj (a b : ascii) : code a = code b → a = b.
Proof.
  unfold code. intros H%N2Z.inj.
  rewrite <- (ascii_N_embedding a), <- (ascii_N_embedding b). by rewrite H.
Qed.

(** [String.leb] is the lexicographic order on code points. *)
Lemma leb_lex_le (s t : string) : String.leb s t = true ↔ Spec.lex_le s t.
Proof.
  revert t. induction s as [|a s IH]; intros t.
  - split; [|by destruct t]. intros _. left. by exists t.
  - destruct t as [|b t].
    + split; [done|]. intros [[u E]|(p & a' & b' & s' & t' & _ & E & _)].
      * by rewrite str_app_cons in E.
      * destruct p; by rewrite ?str_app_cons, ?str_app_nil_l in E.
    + rewrite leb_cons.
      destruct (code a <? code b) eqn:Hab.
      { split; [|done]. intros _. right.
        exists EmptyString, a, b, s, t. apply Z.ltb_lt in Hab. done. }
      destruct (code b <? code a) eqn:Hba.
      { split; [done|]. apply Z.ltb_lt in Hba.
        intros [[u E]|(p & a' & b' & s' & t' & E1 & E2 & Hlt)].
        - rewrite str_app_cons in E. injection E as -> _. lia.
        - destruct p as [|c p].
          + rewrite str_app_nil_l in E1, E2.
            injection E1 as -> _. injection E2 as -> _. lia.
          + rewrite str_app_cons in E1, E2.
            injection E1 as -> _. injection E2 as -> _. lia. }
      assert (a = b) as -> by (apply code_inj; lia).
      rewrite IH. split.
      * intros [[u ->]|(p & a' & b' & s' & t' & -> & -> & Hlt)].
        -- left. exists u. by rewrite str_app_cons.
        -- right. exists (String b p), a', b', s', t'. by rewrite !str_app_cons.
      * intros [[u E]|(p & a' & b' & s' & t' & E1 & E2 & Hlt)].
        -- rewrite str_app_cons in E. injection E as ->. left. by exists u.
        -- destruct p as [|c p].
           ++ rewrite str_app_nil_l in E1, E2.
              injection E1 as -> _. injection E2 as -> _. lia.
           ++ rewrite str_app_cons in E1, E2.
              injection E1 as _ ->. injection E2 as _ ->.
              right. by exists p, a', b', s', t'.
Qed.

Lemma leb_trans (s t u : string) :
  String.leb s t = true → String.leb t u = true → String.leb s u = true.
Proof.
  intros H1%Is_true_true H2%Is_true_true. apply Is_true_true.
  change (String.le s u). by trans t.
Qed.

Section SortFacts.
Context {A : Type} (key : A → string).

Lemma insert_by_perm (x : A) (l : list A) : insert_by key x l ≡ₚ x :: l.
Proof.
  induction l as [|y l IH]; simpl; [done|].
  destruct (String.leb (key x) (key y)); [done|].
  rewrite IH. apply Permutation_swap.
Qed.

Lemma sort_perm (l : list A) : sort key l ≡ₚ l.
Proof.
  induction l as [|x l IH]; simpl; [done|].
  by rewrite insert_by_perm, IH.
Qed.

Lemma insert_by_sorted (x : A) (l : list A) :
  StronglySorted (key_le key) l → StronglySorted (key_le key) (insert_by key x l).
Proof.
  induction 1 as [|y l Hs IH Hy]; simpl.
  - repeat constructor.
  - destruct (String.leb (key x) (key y)) eqn:Hxy.
    + constructor; [by constructor|].
      constructor; [done|].
      eapply Forall_impl; [exact Hy|].
      intros z Hz. unfold key_le in *. by eapply leb_trans.
    + constructor; [done|].
      rewrite insert_by_perm. constructor; [|done].
      unfold key_le. destruct (String.leb_total (key x) (key y)); congruence.
Qed.

Lemma sort_sorted (l : list A) : StronglySorted (key_le key) (sort key l).
Proof.
  induction l as [|x l IH]; simpl; [constructor|by apply insert_by_sorted].
Qed.

(** The sort is stable: entries with the same key keep their order. *)
Lemma insert_by_filter (k : string) (x : A) (l : list A) :
  StronglySorted (key_le key) l →
  filter (fun y => key y = k) (insert_by key x l)
  = filter (fun y => key y = k) (x :: l).
Proof.
  induction 1 as [|y l Hs IH Hy]; simpl; [done|].
  destruct (String.leb (key x) (key y)) eqn:Hxy; [done|].
  rewrite filter_cons, IH, !filter_cons.
  destruct (decide (key y = k)) as [Ey|Ny]; [|done].
  destruct (decide (key x = k)) as [Ex|Nx]; [|done].
  rewrite Ex, Ey in Hxy.
  assert (String.leb k k = true) by (apply leb_lex_le; left; exists EmptyString;
    by rewrite str_app_nil_r).
  congruence.
Qed.

Lemma sort_stable (k : string) (l : list A) :
  filter (fun y => key y = k) (sort key l) = filter (fun y => key y = k) l.
Proof.
  induction l as [|x l IH]; simpl; [done|].
  rewrite insert_by_filter by apply sort_sorted.
  by rewrite !filter_cons, IH.
Qed.
End SortFacts.

(** ** Strings: suffixes and base names *)

Lemma drop_app (pre s : string) : drop (String.length pre) (pre +:+ s) = s.
Proof. induction pre as [|c pre IH]; [done|]. by rewrite str_app_cons. Qed.

Lemma drop_split (n : nat) (s : string) :
  (n ≤ String.length s)%nat →
  ∃ pre, s = pre +:+ drop n s ∧ String.length pre = n.
Proof.
  revert s. induction n as [|n IH]; intros s Hn.
  - by exists EmptyString.
  - destruct s as [|c s]; [simpl in Hn; lia|].
    destruct (IH s) as (pre & E & Hl); [simpl in Hn; lia|].
    exists (String c pre). simpl. rewrite str_app_cons, <- E. by rewrite Hl.
Qed.

(** [endswith] holds exactly of the strings that end with the suffix. *)
Lemma endswith_spec (s suffix : string) :
  endswith s suffix = true ↔ ∃ pre, s = pre +:+ suffix.
Proof.
  unfold endswith. rewrite andb_true_iff, Nat.leb_le, String.eqb_eq. split.
  - intros [Hl E].
    destruct (drop_split (String.length s - String.length suffix) s) as (pre & Hs & _);
      [lia|].
    exists pre. by rewrite E in Hs.
  - intros [pre ->]. rewrite str_length_app. split; [lia|].
    replace (String.length pre + String.length suffix - String.length suffix)%nat
      with (String.length pre) by lia.
    apply drop_app.
Qed.

Lemma is_image_spec (blob_name : string) :
  is_image blob_name = true ↔
  ∃ ext pre, In ext image_extensions ∧ lower blob_name = pre +:+ ext.
Proof.
  unfold is_image. rewrite existsb_exists. split.
  - intros (ext & Hin & (pre & E)%endswith_spec). eauto.
  - intros (ext & pre & Hin & E). exists ext. split; [done|].
    apply endswith_spec. eauto.
Qed.

(** ** The loop of [get_image_list] *)

Lemma image_blobs_cons (b : Blob) (blobs : list Blob) :
  image_blobs (b :: blobs)
  = if is_image (blob_name b) then b :: image_blobs blobs else image_blobs blobs.
Proof.
  unfold image_blobs. rewrite filter_cons.
  destruct (is_image (blob_name b)); [by rewrite decide_True|by rewrite decide_False].
Qed.

Lemma collect_spec (self : GCSImageGallery) (clock : Z → Z) (blobs : list Blob) :
  ∀ (images : list ImageInfo) (count : Z) (res : list ImageInfo),
    collect self clock blobs images count = Ok res →
    ∃ entries, res = images ++ entries
               ∧ collected_from self clock count blobs entries.
Proof.
  induction blobs as [|b blobs IH]; intros images count res H; simpl in H.
  - injection H as <-. exists []. rewrite app_nil_r. split; [done|].
    split; [done|]. intros k b Hk. done.
  - unfold collected_from in *. rewrite image_blobs_cons.
    destruct (is_image (blob_name b)) eqn:Hi.
    + destruct (blob_reload b) as [meta|e] eqn:Hr; [|done].
      cbn in H. apply IH in H as (entries & -> & Hlen & Hk).
      exists (image_info self (clock count) b meta :: entries).
      rewrite <- app_assoc. split; [done|].
      split; [simpl; by rewrite Hlen|].
      intros [|k] b' Hb'.
      * injection Hb' as <-. exists meta. split; [done|].
        simpl. by rewrite Z.add_0_r.
      * simpl in Hb'. destruct (Hk k b' Hb') as (meta' & Hr' & He).
        exists meta'. split; [done|]. simpl. rewrite He.
        do 3 f_equal. lia.
    + apply IH in H as (entries & -> & Hlen & Hk).
      exists entries. done.
Qed.

Lemma collect_returns (self : GCSImageGallery) (clock : Z → Z) (blobs : list Blob) :
  ∀ (images : list ImageInfo) (count : Z),
    (∃ res, collect self clock blobs images count = Ok res)
    ↔ ∀ b, b ∈ blobs → is_image (blob_name b) = true →
           ∃ meta, blob_reload b = Ok meta.
Proof.
  induction blobs as [|b blobs IH]; intros images count; simpl.
  - split; [|by eauto]. intros _ b Hb. by apply elem_of_nil in Hb.
  - destruct (is_image (blob_name b)) eqn:Hi.
    + destruct (blob_reload b) as [meta|e] eqn:Hr; cbn.
      * rewrite IH. split.
        -- intros H b' [->|Hb']%elem_of_cons Hi'; eauto.
        -- intros H b' Hb' Hi'. apply H; [by right|done].
      * split; [by intros [res H]|].
        intros H. destruct (H b) as [meta Hm]; [by left|done|congruence].
    + rewrite IH. split.
      * intros H b' [->|Hb']%elem_of_cons Hi'; [congruence|eauto].
      * intros H b' Hb' Hi'. apply H; [by right|done].
Qed.

(** ** [get_image_list] *)

Lemma get_image_list_inv (self : GCSImageGallery) (clock : Z → Z)
    (images : list ImageInfo) :
  get_image_list self clock = Ok images →
  ∃ blobs collected,
    list_blobs (client self) (bucket_name self) (folder_path self) = Ok blobs
    ∧ collected_from self clock 0 blobs collected
    ∧ images = sort filename collected.
Proof.
  unfold get_image_list. intros H.
  destruct (list_blobs _ _ _) as [blobs|e]; [|done]. cbn in H.
  destruct (collect self clock blobs [] 0) as [collected|e] eqn:Hc; [|done].
  cbn in H. injection H as <-.
  apply collect_spec in Hc as (entries & -> & Hfrom).
  exists blobs, entries. done.
Qed.

(** Every entry of the result was built from an image blob of the listing. *)
Lemma get_image_list_entry (self : GCSImageGallery) (clock : Z → Z)
    (images : list ImageInfo) (img : ImageInfo) :
  get_image_list self clock = Ok images → img ∈ images →
  ∃ blobs (k : nat) b meta,
    list_blobs (client self) (bucket_name self) (folder_path self) = Ok blobs
    ∧ image_blobs blobs !! k = Some b
    ∧ blob_reload b = Ok meta
    ∧ img = image_info self (clock (Z.of_nat k)) b meta.
Proof.
  intros (blobs & collected & Hl & [Hlen Hk] & ->)%get_image_list_inv Hin.
  rewrite sort_perm in Hin.
  apply list_elem_of_lookup in Hin as [k Hk'].
  assert (k < length (image_blobs blobs))%nat as Hlt.
  { rewrite <- Hlen. by eapply lookup_lt_Some. }
  apply lookup_lt_is_Some in Hlt as [b Hb].
  destruct (Hk k b Hb) as (meta & Hr & He).
  exists blobs, k, b, meta. split_and!; try done.
  rewrite Z.add_0_l in He. congruence.
Qed.

(** ** [os.path.basename] *)

Lemma occurs_cons (c a : ascii) (s : string) :
  occurs c (String a s) = Ascii.eqb c a || occurs c s.
Proof. reflexivity. Qed.

Lemma rfind_spec (c : ascii) (s : string) :
  (rfind c s = -1 ∧ occurs c s = false)
  ∨ (∃ pre post, s = pre +:+ String c post
                 ∧ rfind c s = Z.of_nat (String.length pre)
                 ∧ occurs c post = false).
Proof.
  induction s as [|a s IH]; [by left|].
  cbn [rfind]. rewrite occurs_cons.
  destruct IH as [[Hr Ho]|(pre & post & -> & Hr & Ho)].
  - rewrite Hr, Ho. cbn [Z.leb Z.compare].
    destruct (Ascii.eqb a c) eqn:Hac.
    + right. apply Ascii.eqb_eq in Hac as ->.
      exists EmptyString, s. done.
    + left. rewrite Ascii.eqb_sym, Hac. done.
  - right. rewrite Hr.
    assert ((0 <=? Z.of_nat (String.length pre)) = true) as -> by lia.
    exists (String a pre), post. rewrite str_app_cons. split_and!; [done| |done].
    cbn [String.length]. lia.
Qed.

(** The base name has no slash, and the name is the base name itself or a
    directory part, a slash and the base name. *)
Lemma basename_spec (p : string) :
  occurs SLASH (basename p) = false
  ∧ (p = basename p ∨ ∃ dir, p = dir +:+ String SLASH (basename p)).
Proof.
  unfold basename.
  destruct (rfind_spec SLASH p) as [[Hr Ho]|(pre & post & -> & Hr & Ho)].
  - rewrite Hr. simpl. split; [done|by left].
  - rewrite Hr.
    replace (Z.to_nat (Z.of_nat (String.length pre) + 1))
      with (String.length (pre +:+ String SLASH EmptyString))
      by (rewrite str_length_app; simpl; lia).
    replace (pre +:+ String SLASH post)
      with ((pre +:+ String SLASH EmptyString) +:+ post)
      by (by rewrite str_app_assoc, str_app_cons, str_app_nil_l).
    rewrite drop_app. split; [done|]. right.
    exists pre. by rewrite str_app_assoc, str_app_cons, str_app_nil_l.
Qed.

(** ** The rendered page *)

Lemma concat_empty_cons (x : string) (l : list string) :
  String.concat "" (x :: l) = x +:+ String.concat "" l.
Proof. destruct l; [by rewrite str_app_nil_r|done]. Qed.

Lemma html_content_text (t : TemplateText) (images : list ImageInfo)
    (images_per_page : Z) (title : string) (total_pages : Z) :
  html_content t images images_per_page title total_pages
  = page_text t title (len images) images_per_page total_pages
      (Json.dumps (Json.Arr (images_for_js images))).
Proof.
  unfold html_content, Jinja.render, html_template, page_text.
  cbn [map Jinja.render_node].
  unfold render_context.
  repeat match goal with
  | |- context [ ?m !! ?k ] =>
      let v := fresh "v" in
      evar (v : option Jinja.val);
      replace (m !! k) with v by (subst v; simplify_map_eq; reflexivity);
      subst v
  end.
  cbn [fmap option_fmap option_map default Jinja.to_str].
  rewrite !concat_empty_cons. cbn [String.concat].
  rewrite !str_app_assoc, ?str_app_nil_r. reflexivity.
Qed.

(** ** Page count *)

Lemma total_pages_eq {A} (images : list A) (images_per_page : Z) :
  images_per_page ≠ 0 →
  total_pages images images_per_page
  = Ok ((len images + images_per_page - 1) / images_per_page).
Proof.
  intros H. unfold total_pages, floordiv.
  by destruct (Z.eqb_spec images_per_page 0).
Qed.

Lemma total_pages_zero {A} (images : list A) :
  total_pages images 0 = Raise ZeroDivisionError.
Proof. reflexivity. Qed.

Lemma len_nonneg {A} (l : list A) : 0 <= len l.
Proof. unfold len. lia. Qed.

Lemma ceiling_div (n d : Z) :
  0 <= n → 1 <= d → is_ceiling n d ((n + d - 1) / d).
Proof.
  intros Hn Hd.
  pose proof (Z.mul_div_le (n + d - 1) d ltac:(lia)) as Hlo.
  pose proof (Z.mul_succ_div_gt (n + d - 1) d ltac:(lia)) as Hhi.
  split; [nia|]. intros q Hq. nia.
Qed.

Lemma is_ceiling_unique (n d p q : Z) :
  is_ceiling n d p → is_ceiling n d q → p = q.
Proof. intros [Hp Hp'] [Hq Hq']. specialize (Hp' q Hq). specialize (Hq' p Hp). lia. Qed.

(** Below zero the value computed is no page count: that many pages of that
    many images hold fewer images than there are. *)
Lemma floor_div_negative (n d : Z) : d < 0 → (n + d - 1) / d * d < n.
Proof.
  intros Hd.
  pose proof (Z.div_mod (n + d - 1) d ltac:(lia)) as Hdm.
  pose proof (Z.mod_neg_bound (n + d - 1) d Hd) as Hb.
  nia.
Qed.

(** C1. For every list of images and every images_per_page >= 1,
    generate_html_gallery computes the total page count as the ceiling of
    len(images) / images_per_page, through the integer division
    (len(images) + images_per_page - 1) // images_per_page; an empty list
    gives 0 pages and a list of exactly k * images_per_page images gives k
    pages. *)
Theorem total_pages_is_ceiling {A} (images : list A) (images_per_page : Z) :
  1 <= images_per_page →
  ∃ p : Z,
    total_pages images images_per_page = Ok p
    ∧ p = (len images + images_per_page - 1) / images_per_page
    ∧ is_ceiling (len images) images_per_page p
    ∧ (images = [] → p = 0)
    ∧ (∀ k : Z, len images = k * images_per_page → p = k).
Proof.
  intros Hd. exists ((len images + images_per_page - 1) / images_per_page).
  pose proof (len_nonneg images) as Hn.
  pose proof (ceiling_div (len images) images_per_page Hn Hd) as Hc.
  split_and!; try done.
  - apply total_pages_eq. lia.
  - intros ->. change (len []) with 0. apply Z.div_small. lia.
  - intros k Hk. eapply is_ceiling_unique; [exact Hc|].
    rewrite Hk. split; [lia|]. intros q Hq. nia.
Qed.

Lemma total_pages_is_ceiling_witness :
  1 <= 2
  ∧ ∃ p : Z,
      total_pages [10; 20; 30] 2 = Ok p
      ∧ p = (len [10; 20; 30] + 2 - 1) / 2
      ∧ is_ceiling (len [10; 20; 30]) 2 p
      ∧ ([10; 20; 30] = [] → p = 0)
      ∧ (∀ k : Z, len [10; 20; 30] = k * 2 → p = k).
Proof. split; [lia|apply (total_pages_is_ceiling [10; 20; 30] 2); lia]. Defined.

(** ** The file written by [generate_html_gallery] *)

Lemma generate_html_gallery_ok (t : TemplateText) (self : GCSImageGallery)
    (images : list ImageInfo) (output_file : string) (images_per_page : Z)
    (title : string) (fs : FileSystem) :
  images_per_page ≠ 0 → can_write fs output_file = true →
  generate_html_gallery t self images output_file images_per_page title fs
  = Ok (mk_FileSystem
          (<[output_file :=
               html_content t images images_per_page title
                 ((len images + images_per_page - 1) / images_per_page)]>
             (files fs))
          (can_write fs)).
Proof.
  intros Hd Hw. unfold generate_html_gallery.
  rewrite total_pages_eq by done. cbn. unfold write_file. by rewrite Hw.
Qed.

(** The rendering recovers from nothing: it returns exactly when the
    division is defined and the file can be written. *)
Lemma generate_html_gallery_returns (t : TemplateText) (self : GCSImageGallery)
    (images : list ImageInfo) (output_file : string) (images_per_page : Z)
    (title : string) (fs : FileSystem) :
  (∃ fs', generate_html_gallery t self images output_file images_per_page title fs
          = Ok fs')
  ↔ images_per_page ≠ 0 ∧ can_write fs output_file = true.
Proof.
  split.
  - intros [fs' H]. unfold generate_html_gallery, total_pages, floordiv in H.
    destruct (Z.eqb_spec images_per_page 0) as [->|Hd]; [done|].
    cbn in H. unfold write_file in H.
    by destruct (can_write fs output_file).
  - intros [Hd Hw]. eexists. by apply generate_html_gallery_ok.
Qed.

Lemma generate_html_gallery_zero (t : TemplateText) (self : GCSImageGallery)
    (images : list ImageInfo) (output_file title : string) (fs : FileSystem) :
  generate_html_gallery t self images output_file 0 title fs
  = Raise ZeroDivisionError.
Proof. reflexivity. Qed.

(** C8. The page count is well defined only for images_per_page >= 1: with
    images_per_page = 0 the expression divides by zero, and nothing guards
    it: main hands --per-page, any integer, zero and negative numbers
    included, to generate_html_gallery. *)
Theorem per_page_is_not_guarded (t : TemplateText) (storage : Client)
    (clock : Z → Z) (args : Args) (fs : FileSystem)
    (img : ImageInfo) (images : list ImageInfo) :
  get_image_list
    (init storage (arg_project args) (arg_bucket args) (arg_folder args)) clock
  = Ok (img :: images) →
  main t storage clock args fs
  = match generate_html_gallery t
            (init storage (arg_project args) (arg_bucket args) (arg_folder args))
            (img :: images) (arg_output args) (arg_per_page args)
            (arg_title args) fs with
    | Ok fs' => (0, fs')
    | Raise _ => (1, fs)
    end
  ∧ (arg_per_page args = 0 →
     total_pages (img :: images) (arg_per_page args) = Raise ZeroDivisionError
     ∧ generate_html_gallery t
         (init storage (arg_project args) (arg_bucket args) (arg_folder args))
         (img :: images) (arg_output args) (arg_per_page args)
         (arg_title args) fs
       = Raise ZeroDivisionError
     ∧ main t storage clock args fs = (1, fs))
  ∧ (arg_per_page args < 0 →
     ∃ p : Z, total_pages (img :: images) (arg_per_page args) = Ok p
              ∧ p * arg_per_page args < len (img :: images))
  ∧ (∀ p : Z, total_pages (img :: images) (arg_per_page args) = Ok p →
              is_ceiling (len (img :: images)) (arg_per_page args) p →
              1 <= arg_per_page args)
  ∧ (∀ (l : list ImageInfo) (output_file title : string) (fs0 : FileSystem),
       generate_html_gallery t
         (init storage (arg_project args) (arg_bucket args) (arg_folder args))
         l output_file 0 title fs0
       = Raise ZeroDivisionError).
Proof.
  intros Hl.
  assert (Hmain : main t storage clock args fs
    = match generate_html_gallery t
              (init storage (arg_project args) (arg_bucket args) (arg_folder args))
              (img :: images) (arg_output args) (arg_per_page args)
              (arg_title args) fs with
      | Ok fs' => (0, fs')
      | Raise _ => (1, fs)
      end).
  { unfold main. by rewrite Hl. }
  split_and!.
  - exact Hmain.
  - intros H0. rewrite Hmain, H0. done.
  - intros Hneg. eexists. split; [apply total_pages_eq; lia|].
    by apply floor_div_negative.
  - intros p Hp [Hc _].
    destruct (Z.lt_trichotomy (arg_per_page args) 0) as [Hneg|[H0|Hpos]]; [| |lia].
    + rewrite total_pages_eq in Hp by lia. injection Hp as <-.
      pose proof (floor_div_negative (len (img :: images)) _ Hneg). lia.
    + rewrite H0 in Hp. done.
  - intros l output_file title fs0. apply generate_html_gallery_zero.
Qed.

(** ** Fields of an entry *)

Lemma image_info_name (self : GCSImageGallery) (now : Z) (b : Blob) (meta : Metadata) :
  name (image_info self now b meta) = blob_name b.
Proof. unfold image_info. by destruct (date_of_filename _). Qed.

Lemma image_info_filename (self : GCSImageGallery) (now : Z) (b : Blob) (meta : Metadata) :
  filename (image_info self now b meta) = basename (blob_name b).
Proof. unfold image_info. by destruct (date_of_filename _). Qed.

Lemma image_info_public_url (self : GCSImageGallery) (now : Z) (b : Blob) (meta : Metadata) :
  public_url (image_info self now b meta) = access_url self now b.
Proof. unfold image_info. by destruct (date_of_filename _). Qed.

Lemma image_info_date (self : GCSImageGallery) (now : Z) (b : Blob) (meta : Metadata) :
  (date_str (image_info self now b meta), date_display (image_info self now b meta))
  = date_of_filename (basename (blob_name b)).
Proof. unfold image_info. by destruct (date_of_filename _). Qed.

(** An entry's date fields are those of its own file name. *)
Lemma get_image_list_date (self : GCSImageGallery) (clock : Z → Z)
    (images : list ImageInfo) (img : ImageInfo) :
  get_image_list self clock = Ok images → img ∈ images →
  filename img = basename (name img)
  ∧ (date_str img, date_display img) = date_of_filename (filename img).
Proof.
  intros H Hin.
  destruct (get_image_list_entry self clock images img H Hin)
    as (blobs & k & b & meta & _ & _ & _ & ->).
  by rewrite image_info_filename, image_info_name, image_info_date.
Qed.

(** ** Sorting *)

Lemma strongly_sorted_weaken {A : Type} (R S : A → A → Prop) (l : list A) :
  (∀ a b, R a b → S a b) → StronglySorted R l → StronglySorted S l.
Proof.
  intros HRS. induction 1 as [|x l Hs IH Hx]; constructor; [done|].
  eapply Forall_impl; [exact Hx|]. intros y. apply HRS.
Qed.

(** C2. The list returned by get_image_list is sorted in ascending
    lexicographic order of the 'filename' field, which is the base name of
    the object name, and it is a permutation of the image entries collected
    from the bucket listing. *)
Theorem get_image_list_sorted_permutation (self : GCSImageGallery)
    (clock : Z → Z) (images : list ImageInfo) :
  get_image_list self clock = Ok images →
  StronglySorted (fun a b => lex_le (filename a) (filename b)) images
  ∧ (∀ img, img ∈ images → filename img = basename (name img))
  ∧ ∃ blobs collected,
      list_blobs (client self) (bucket_name self) (folder_path self) = Ok blobs
      ∧ collected_from self clock 0 blobs collected
      ∧ images ≡ₚ collected.
Proof.
  intros H. split_and!.
  - apply get_image_list_inv in H as (blobs & collected & _ & _ & ->).
    eapply strongly_sorted_weaken; [|apply (sort_sorted filename)].
    intros a b Hab. by apply leb_lex_le.
  - intros img Hin. by apply (get_image_list_date self clock images img H Hin).
  - apply get_image_list_inv in H as (blobs & collected & Hl & Hc & ->).
    exists blobs, collected. split_and!; [done..|]. apply sort_perm.
Qed.

Lemma get_image_list_sorted_permutation_witness :
  get_image_list Sample.photos_gallery Sample.clock = Ok Sample.photos_images
  ∧ StronglySorted (fun a b => lex_le (filename a) (filename b))
      Sample.photos_images.
Proof.
  split; [vm_compute; reflexivity|].
  apply (get_image_list_sorted_permutation Sample.photos_gallery Sample.clock).
  vm_compute. reflexivity.
Defined.

(** ** Filtering *)

(** C5. get_image_list returns only image objects: an object of the bucket
    listing appears in the returned list if and only if its name,
    lowercased, ends with one of the extensions .jpg, .jpeg, .png, .gif,
    .bmp, .webp, .tiff, .svg. *)
Theorem get_image_list_only_images (self : GCSImageGallery) (clock : Z → Z)
    (images : list ImageInfo) (blobs : list Blob) (b : Blob) :
  get_image_list self clock = Ok images →
  list_blobs (client self) (bucket_name self) (folder_path self) = Ok blobs →
  b ∈ blobs →
  (∃ img, img ∈ images ∧ name img = blob_name b)
  ↔ (∃ ext pre : string,
       In ext [".jpg"; ".jpeg"; ".png"; ".gif"; ".bmp"; ".webp"; ".tiff"; ".svg"]%string
       ∧ lower (blob_name b) = pre +:+ ext).
Proof.
  intros H Hl Hb.
  change [".jpg"; ".jpeg"; ".png"; ".gif"; ".bmp"; ".webp"; ".tiff"; ".svg"]%string
    with image_extensions.
  rewrite <- is_image_spec. split.
  - intros (img & Hin & Hname).
    destruct (get_image_list_entry self clock images img H Hin)
      as (blobs' & k & b' & meta & _ & Hk & _ & ->).
    rewrite image_info_name in Hname. rewrite <- Hname.
    apply list_elem_of_lookup_2 in Hk.
    unfold image_blobs in Hk. by apply list_elem_of_filter in Hk as [? _].
  - intros Hi.
    apply get_image_list_inv in H as (blobs' & collected & Hl' & [Hlen Hk] & ->).
    assert (blobs' = blobs) as -> by congruence.
    assert (b ∈ image_blobs blobs) as Hin.
    { unfold image_blobs. by apply list_elem_of_filter. }
    apply list_elem_of_lookup in Hin as [k Hb'].
    destruct (Hk k b Hb') as (meta & Hr & He).
    eexists. split; [|apply image_info_name].
    rewrite sort_perm. by eapply list_elem_of_lookup_2.
Qed.

Lemma get_image_list_only_images_witness :
  get_image_list Sample.photos_gallery Sample.clock = Ok Sample.photos_images
  ∧ list_blobs (client Sample.photos_gallery) (bucket_name Sample.photos_gallery)
      (folder_path Sample.photos_gallery)
    = Ok [ Sample.blob "trip/b_DT20250801_1.JPG"; Sample.blob "trip/notes.txt";
           Sample.blob "trip/a_DT20250802_2.png"; Sample.blob "trip/c.gif" ]
  ∧ ((∃ img, img ∈ Sample.photos_images
             ∧ name img = blob_name (Sample.blob "trip/notes.txt"))
     ↔ (∃ ext pre : string,
          In ext [".jpg"; ".jpeg"; ".png"; ".gif"; ".bmp"; ".webp"; ".tiff"; ".svg"]%string
          ∧ lower (blob_name (Sample.blob "trip/notes.txt")) = pre +:+ ext)).
Proof.
  split; [vm_compute; reflexivity|].
  split; [vm_compute; reflexivity|].
  apply (get_image_list_only_images Sample.photos_gallery Sample.clock
           Sample.photos_images
           [ Sample.blob "trip/b_DT20250801_1.JPG"; Sample.blob "trip/notes.txt";
             Sample.blob "trip/a_DT20250802_2.png"; Sample.blob "trip/c.gif" ]).
  - vm_compute. reflexivity.
  - vm_compute. reflexivity.
  - apply list_elem_of_In. simpl. tauto.
Defined.

(** ** Dates *)

Lemma first_DT_group_search (s d : string) :
  first_DT_group s d ↔ Re.search_DT_d8 s = Some d.
Proof.
  pose proof (search_DT_d8_spec s) as Hs. split.
  - intros (i & Hi & Hmin).
    destruct (Re.search_DT_d8 s) as [d0|]; [|by destruct (Hs i d)].
    destruct Hs as (i0 & Hi0 & Hmin0).
    destruct (Hmin0 i d Hi) as [Hle Heq].
    pose proof (Hmin i0 d0 Hi0). f_equal. symmetry. apply Heq. lia.
  - intros E. rewrite E in Hs. destruct Hs as (i & Hi & Hmin).
    exists i. split; [done|]. intros j d' Hj. by destruct (Hmin j d' Hj).
Qed.

Lemma no_DT_group_search (s : string) :
  (∀ i d, ¬ DT_group_at s i d) ↔ Re.search_DT_d8 s = None.
Proof.
  pose proof (search_DT_d8_spec s) as Hs. split.
  - intros Hn. destruct (Re.search_DT_d8 s) as [d|]; [|done].
    destruct Hs as (i & Hi & _). by destruct (Hn i d).
  - intros E. by rewrite E in Hs.
Qed.

Lemma date_of_filename_calendar (f d : string) :
  Re.search_DT_d8 f = Some d → is_calendar_date d = true →
  date_of_filename f = (Some d, day_and_month d).
Proof.
  intros Hs Hv. unfold date_of_filename. rewrite Hs.
  destruct (search_DT_d8_digits f d Hs) as [Hl Hd].
  rewrite strptime_Ymd_eight_digits by done.
  unfold is_calendar_date, day_and_month in *.
  destruct (ymd d) as [[y m] dd]. by rewrite Hv.
Qed.

Lemma date_of_filename_not_calendar (f d : string) :
  Re.search_DT_d8 f = Some d → is_calendar_date d = false →
  date_of_filename f = (Some d, d).
Proof.
  intros Hs Hv. unfold date_of_filename. rewrite Hs.
  destruct (search_DT_d8_digits f d Hs) as [Hl Hd].
  rewrite strptime_Ymd_eight_digits by done.
  unfold is_calendar_date in *.
  destruct (ymd d) as [[y m] dd]. by rewrite Hv.
Qed.

Lemma date_of_filename_none (f : string) :
  Re.search_DT_d8 f = None → date_of_filename f = (None, "Unknown Date"%string).
Proof. intros Hs. unfold date_of_filename. by rewrite Hs. Qed.

(** On the digits of a file name, [strptime] raises exactly when they are
    no calendar date. *)
Lemma strptime_raises (f d : string) :
  Re.search_DT_d8 f = Some d →
  strptime_Ymd d = Raise ValueError ↔ is_calendar_date d = false.
Proof.
  intros Hs. destruct (search_DT_d8_digits f d Hs) as [Hl Hd].
  rewrite strptime_Ymd_eight_digits by done. unfold is_calendar_date.
  destruct (ymd d) as [[y m] dd]. by destruct (valid_date y m dd).
Qed.

(** C4, as the code has it.  The date of an entry is read off its file name:
    when the base name has DT followed by eight digits, date_str is the
    first such group, and date_display is zero-padded day and full month
    name when the digits are a calendar date; when there is no such group,
    date_str is None and date_display is Unknown Date. *)
Theorem date_fields_of_entries (self : GCSImageGallery) (clock : Z → Z)
    (images : list ImageInfo) (img : ImageInfo) :
  get_image_list self clock = Ok images → img ∈ images →
  filename img = basename (name img)
  ∧ (∀ d : string,
       first_DT_group (filename img) d →
       date_str img = Some d
       ∧ (is_calendar_date d = true → date_display img = day_and_month d))
  ∧ ((∀ (i : nat) (d : string), ¬ DT_group_at (filename img) i d) →
     date_str img = None ∧ date_display img = "Unknown Date"%string).
Proof.
  intros H Hin.
  destruct (get_image_list_date self clock images img H Hin) as [Hf Hd].
  split_and!; [done|..].
  - intros d Hg%first_DT_group_search.
    destruct (is_calendar_date d) eqn:Hv.
    + rewrite (date_of_filename_calendar _ _ Hg Hv) in Hd.
      injection Hd as -> ->. done.
    + rewrite (date_of_filename_not_calendar _ _ Hg Hv) in Hd.
      injection Hd as -> ->. done.
  - intros Hn%no_DT_group_search.
    rewrite (date_of_filename_none _ Hn) in Hd. by injection Hd as -> ->.
Qed.

(** C10. When the eight digits after DT are no calendar date, date_display
    is the eight digits themselves, not Unknown Date, and date_str is those
    digits. *)
Theorem invalid_date_is_displayed_raw (self : GCSImageGallery) (clock : Z → Z)
    (images : list ImageInfo) (img : ImageInfo) (d : string) :
  get_image_list self clock = Ok images → img ∈ images →
  first_DT_group (filename img) d →
  is_calendar_date d = false →
  date_str img = Some d
  ∧ date_display img = d
  ∧ date_display img ≠ "Unknown Date"%string.
Proof.
  intros H Hin Hg%first_DT_group_search Hv.
  destruct (get_image_list_date self clock images img H Hin) as [Hf Hd].
  rewrite (date_of_filename_not_calendar _ _ Hg Hv) in Hd.
  injection Hd as -> ->. split_and!; [done..|].
  destruct (search_DT_d8_digits _ _ Hg) as [Hl _].
  intros ->. done.
Qed.

(** ** Access URLs and error recovery *)

Lemma access_url_cases (self : GCSImageGallery) (now : Z) (b : Blob) :
  match blob_generate_signed_url b (now + 3600) "GET" with
  | Ok url => access_url self now b = url
  | Raise _ =>
      access_url self now b
      = "https://storage.googleapis.com/" +:+ bucket_name self +:+ "/"
        +:+ blob_name b
  end.
Proof. unfold access_url, try_except. by destruct (blob_generate_signed_url _ _ _). Qed.

(** The listing returns exactly when the bucket can be listed and the
    metadata of every image can be reloaded: no failure of signing or of
    date parsing reaches the caller, every other failure does. *)
Lemma get_image_list_returns (self : GCSImageGallery) (clock : Z → Z) :
  (∃ images, get_image_list self clock = Ok images)
  ↔ ∃ blobs,
      list_blobs (client self) (bucket_name self) (folder_path self) = Ok blobs
      ∧ ∀ b, b ∈ blobs → is_image (blob_name b) = true →
             ∃ meta, blob_reload b = Ok meta.
Proof.
  unfold get_image_list.
  destruct (list_blobs _ _ _) as [blobs|e]; cbn.
  - pose proof (collect_returns self clock blobs [] 0) as Hc. split.
    + intros [images H]. exists blobs. split; [done|]. apply Hc.
      destruct (collect self clock blobs [] 0); [eauto|done].
    + intros (blobs' & [= <-] & Hall). apply Hc in Hall as [res ->]. cbn. eauto.
  - split; [by intros [? ?]|by intros (? & ? & _)].
Qed.

(** C3, as the code has it.  For every listed image, public_url is the URL
    that generate_signed_url returns for an expiration one hour after the
    reading of the clock and the method GET, and, when signing raises, the
    string https://storage.googleapis.com/{bucket_name}/{blob.name}.  This
    try/except is one of the two recovery points of the listing: the other
    one is around strptime and leaves date_display as the digits.  A failing
    list_blobs or reload is not recovered, and the rendering recovers from
    nothing. *)
Theorem signed_url_or_fallback (self : GCSImageGallery) (clock : Z → Z)
    (images : list ImageInfo) :
  get_image_list self clock = Ok images →
  ∃ blobs : list Blob,
    list_blobs (client self) (bucket_name self) (folder_path self) = Ok blobs
    ∧ (∀ b, b ∈ blobs → is_image (blob_name b) = true →
            ∃ meta, blob_reload b = Ok meta)
    ∧ (∀ img, img ∈ images →
         ∃ (b : Blob) (k : nat),
           image_blobs blobs !! k = Some b
           ∧ name img = blob_name b
           ∧ match blob_generate_signed_url b (clock (Z.of_nat k) + 3600) "GET" with
             | Ok url => public_url img = url
             | Raise _ =>
                 public_url img
                 = "https://storage.googleapis.com/" +:+ bucket_name self +:+ "/"
                   +:+ blob_name b
             end
           ∧ ∀ d, date_str img = Some d → strptime_Ymd d = Raise ValueError →
                  date_display img = d)
    ∧ (∀ (t : TemplateText) (output_file : string) (images_per_page : Z)
         (title : string) (fs fs' : FileSystem),
         generate_html_gallery t self images output_file images_per_page title fs
         = Ok fs' →
         images_per_page ≠ 0 ∧ can_write fs output_file = true).
Proof.
  intros H.
  destruct (proj1 (get_image_list_returns self clock) (ex_intro _ images H))
    as (blobs & Hl & Hreload).
  exists blobs. split_and!; [done..| |].
  - intros img Hin.
    destruct (get_image_list_date self clock images img H Hin) as [Hf Hd].
    destruct (get_image_list_entry self clock images img H Hin)
      as (blobs' & k & b & meta & Hl' & Hk & _ & E).
    assert (blobs' = blobs) as -> by congruence.
    exists b, k. split_and!; [done|..].
    + rewrite E. apply image_info_name.
    + rewrite E, image_info_public_url. apply access_url_cases.
    + intros d Hs Hraise.
      unfold date_of_filename in Hd.
      destruct (Re.search_DT_d8 (filename img)) as [d0|] eqn:Hg.
      * injection Hd as Hd1 Hd2. rewrite Hs in Hd1. injection Hd1 as ->.
        rewrite Hraise in Hd2. done.
      * injection Hd as Hd1 _. congruence.
  - intros t output_file images_per_page title fs fs' Hg.
    apply (generate_html_gallery_returns t self images output_file
             images_per_page title fs). eauto.
Qed.

(** ** The samples, evaluated *)

Lemma photos_listing :
  get_image_list Sample.photos_gallery Sample.clock = Ok Sample.photos_images.
Proof. vm_compute. reflexivity. Qed.

Lemma undated_listing :
  get_image_list Sample.undated_gallery Sample.clock = Ok [Sample.undated_image].
Proof. vm_compute. reflexivity. Qed.

Lemma quoted_listing :
  get_image_list Sample.quoted_gallery Sample.clock = Ok [Sample.quoted_image].
Proof. vm_compute. reflexivity. Qed.

Lemma undated_group :
  first_DT_group (filename Sample.undated_image) "20250230".
Proof. apply first_DT_group_search. vm_compute. reflexivity. Qed.

(** C3, as stated, fails.  Were the fallback on signing the only recovery
    point of the listing, an exception raised by strptime would end the
    listing.  The bucket [Sample.undated] holds one image whose digits are
    30 February: strptime raises on them, signing succeeds, and the listing
    returns. *)
Lemma signing_is_not_the_only_recovery :
  ¬ (∀ (self : GCSImageGallery) (clock : Z → Z) (blobs : list Blob)
       (b : Blob) (d : string),
       list_blobs (client self) (bucket_name self) (folder_path self) = Ok blobs →
       b ∈ image_blobs blobs →
       Re.search_DT_d8 (basename (blob_name b)) = Some d →
       strptime_Ymd d = Raise ValueError →
       ∃ e, get_image_list self clock = Raise e).
Proof.
  intros H.
  destruct (H Sample.undated_gallery Sample.clock
              [Sample.blob "x_DT20250230.jpg"] (Sample.blob "x_DT20250230.jpg")
              "20250230"%string) as [e He].
  - vm_compute. reflexivity.
  - apply list_elem_of_In. vm_compute. tauto.
  - vm_compute. reflexivity.
  - vm_compute. reflexivity.
  - rewrite undated_listing in He. discriminate He.
Qed.

Lemma signed_url_or_fallback_witness :
  get_image_list Sample.photos_gallery Sample.clock = Ok Sample.photos_images
  ∧ ∃ blobs : list Blob,
      list_blobs (client Sample.photos_gallery) (bucket_name Sample.photos_gallery)
        (folder_path Sample.photos_gallery) = Ok blobs
      ∧ ∀ b, b ∈ blobs → is_image (blob_name b) = true →
             ∃ meta, blob_reload b = Ok meta.
Proof.
  split; [vm_compute; reflexivity|].
  destruct (signed_url_or_fallback Sample.photos_gallery Sample.clock
              Sample.photos_images) as (blobs & Hl & Hreload & _).
  - vm_compute. reflexivity.
  - exists blobs. split; [exact Hl|exact Hreload].
Defined.

(** C4, as stated, fails: the digits 20250230 are DT followed by eight
    digits, and their entry is displayed as the digits, not as day and
    month. *)
Lemma invalid_date_is_not_day_and_month :
  ¬ (∀ (self : GCSImageGallery) (clock : Z → Z) (images : list ImageInfo)
       (img : ImageInfo) (d : string),
       get_image_list self clock = Ok images → img ∈ images →
       first_DT_group (filename img) d →
       date_str img = Some d ∧ date_display img = day_and_month d).
Proof.
  intros H.
  destruct (H Sample.undated_gallery Sample.clock [Sample.undated_image]
              Sample.undated_image "20250230"%string) as [_ Hd].
  - exact undated_listing.
  - apply list_elem_of_In. left. reflexivity.
  - exact undated_group.
  - vm_compute in Hd. discriminate Hd.
Qed.

Lemma date_fields_of_entries_witness :
  get_image_list Sample.undated_gallery Sample.clock = Ok [Sample.undated_image]
  ∧ Sample.undated_image ∈ [Sample.undated_image]
  ∧ filename Sample.undated_image = basename (name Sample.undated_image).
Proof.
  split; [vm_compute; reflexivity|].
  split; [apply list_elem_of_In; left; reflexivity|].
  refine (proj1 (date_fields_of_entries Sample.undated_gallery Sample.clock
                   [Sample.undated_image] Sample.undated_image _ _)).
  - vm_compute. reflexivity.
  - apply list_elem_of_In. left. reflexivity.
Defined.

Lemma invalid_date_is_displayed_raw_witness :
  get_image_list Sample.undated_gallery Sample.clock = Ok [Sample.undated_image]
  ∧ Sample.undated_image ∈ [Sample.undated_image]
  ∧ first_DT_group (filename Sample.undated_image) "20250230"
  ∧ is_calendar_date "20250230" = false
  ∧ date_str Sample.undated_image = Some "20250230"%string
  ∧ date_display Sample.undated_image = "20250230"%string
  ∧ date_display Sample.undated_image ≠ "Unknown Date"%string.
Proof.
  split; [vm_compute; reflexivity|].
  split; [apply list_elem_of_In; left; reflexivity|].
  split; [exact undated_group|].
  split; [vm_compute; reflexivity|].
  apply (invalid_date_is_displayed_raw Sample.undated_gallery Sample.clock
           [Sample.undated_image] Sample.undated_image "20250230").
  - vm_compute. reflexivity.
  - apply list_elem_of_In. left. reflexivity.
  - exact undated_group.
  - vm_compute. reflexivity.
Defined.

Lemma per_page_is_not_guarded_witness :
  get_image_list
    (init Sample.photos (arg_project (Sample.photos_args 0))
       (arg_bucket (Sample.photos_args 0)) (arg_folder (Sample.photos_args 0)))
    Sample.clock
  = Ok Sample.photos_images
  ∧ main Sample.text Sample.photos Sample.clock (Sample.photos_args 0) Sample.disk
    = (1, Sample.disk).
Proof.
  split; [vm_compute; reflexivity|].
  refine (proj2 (proj2 (proj1 (proj2
    (per_page_is_not_guarded Sample.text Sample.photos Sample.clock
       (Sample.photos_args 0) Sample.disk _ _ _)) _))).
  - vm_compute. reflexivity.
  - reflexivity.
Defined.

(** ** The page *)

(** The array written into the page reads back as the entries prepared for
    it, one for each image and in the order of the images. *)
Lemma images_json_reads_back (images : list ImageInfo) :
  Json.loads (Json.dumps (Json.Arr (images_for_js images)))
  = Some (Json.Arr (map image_for_js images)).
Proof. apply loads_dumps. Qed.

(** ** Escaping *)

Lemma replace_absent (c : ascii) (new s : string) :
  occurs c s = false → replace c new s = s.
Proof.
  induction s as [|a s IH]; [done|].
  rewrite occurs_cons. intros [Hc Hs]%orb_false_iff.
  cbn [replace]. rewrite Ascii.eqb_sym, Hc. by rewrite IH.
Qed.

Lemma replace_length_le (c a b : ascii) (s : string) :
  (String.length s ≤ String.length (replace c (String a (String b EmptyString)) s))%nat.
Proof.
  induction s as [|x s IH]; [done|]. cbn [replace].
  destruct (Ascii.eqb x c); rewrite ?str_length_app; simpl; lia.
Qed.

Lemma replace_longer (c a b : ascii) (s : string) :
  occurs c s = true →
  (String.length s < String.length (replace c (String a (String b EmptyString)) s))%nat.
Proof.
  induction s as [|x s IH]; [done|].
  rewrite occurs_cons. cbn [replace]. rewrite (Ascii.eqb_sym c x).
  pose proof (replace_length_le c a b s).
  destruct (Ascii.eqb x c); rewrite ?str_length_app; simpl.
  - intros _. lia.
  - intros Hs. specialize (IH Hs). lia.
Qed.

(** The two replacements leave a string as it is exactly when it has no
    double quote and no backslash. *)
Lemma escape_for_js_fixed (s : string) :
  escape_for_js s = s ↔ occurs QUOTE s = false ∧ occurs BACKSLASH s = false.
Proof.
  unfold escape_for_js. split.
  - intros E.
    pose proof (replace_length_le BACKSLASH BACKSLASH BACKSLASH s) as H1.
    pose proof (replace_length_le QUOTE BACKSLASH QUOTE
                  (replace BACKSLASH (String BACKSLASH (String BACKSLASH EmptyString)) s))
      as H2.
    destruct (occurs BACKSLASH s) eqn:Hb.
    { pose proof (replace_longer BACKSLASH BACKSLASH BACKSLASH s Hb).
      rewrite E in H2. lia. }
    rewrite (replace_absent BACKSLASH _ s Hb) in E.
    destruct (occurs QUOTE s) eqn:Hq; [|done].
    pose proof (replace_longer QUOTE BACKSLASH QUOTE s Hq). rewrite E in *. lia.
  - intros [Hq Hb]. by rewrite (replace_absent BACKSLASH _ s Hb), replace_absent.
Qed.

(** What the page's script reads for the file name of an image: the name
    after the two replacements, which is the name itself only when the name
    has neither a double quote nor a backslash. *)
Lemma filename_read_back (img : ImageInfo) :
  Json.get "filename" (image_for_js img) = Some (Json.Str (escape_for_js (filename img))).
Proof. unfold image_for_js. cbn. by destruct (filename img). Qed.

Lemma get_cons (k k' : string) (v : Json.value) (items : list (string * Json.value)) :
  Json.get k (Json.Obj ((k', v) :: items))
  = if String.eqb k' k then Some v else Json.get k (Json.Obj items).
Proof. unfold Json.get. cbn. by destruct (String.eqb k' k). Qed.

Lemma public_url_read_back (img : ImageInfo) :
  Json.get "public_url" (image_for_js img)
  = Some (Json.Str (escape_for_js (public_url img))).
Proof.
  unfold image_for_js. rewrite !get_cons. cbn.
  destruct (public_url img) as [|c s] eqn:E; [done|].
  unfold or_else.
  destruct (escape_for_js (String c s)) as [|c' s'] eqn:E'; [|done].
  exfalso. unfold escape_for_js in E'.
  pose proof (replace_length_le BACKSLASH BACKSLASH BACKSLASH (String c s)) as H1.
  pose proof (replace_length_le QUOTE BACKSLASH QUOTE
                (replace BACKSLASH (String BACKSLASH (String BACKSLASH EmptyString))
                   (String c s))) as H2.
  rewrite E' in H2. cbn [String.length] in *. lia.
Qed.

Lemma size_read_back (img : ImageInfo) :
  Json.get "size" (image_for_js img)
  = Some (match size img with Some n => Json.Int n | None => Json.Null end).
Proof. unfold image_for_js. by rewrite !get_cons. Qed.

(** The two replacements, one after the other, are one pass that puts a
    backslash before each double quote and each backslash. *)
Lemma escape_for_js_backslashed (s : string) : escape_for_js s = backslashed s.
Proof.
  unfold escape_for_js. induction s as [|c s IH]; [done|].
  cbn [replace backslashed].
  destruct (Ascii.eqb_spec c BACKSLASH) as [->|Hb].
  - rewrite !str_app_cons, str_app_nil_l. cbn [replace].
    change (Ascii.eqb BACKSLASH QUOTE) with false. cbn [orb].
    by rewrite IH.
  - rewrite orb_false_r. cbn [replace].
    destruct (Ascii.eqb_spec c QUOTE) as [->|Hq].
    + by rewrite !str_app_cons, str_app_nil_l, IH.
    + by rewrite IH.
Qed.

(** The dict that the loop appends for an image is the element of that
    image. *)
Lemma image_for_js_element (img : ImageInfo) : element_of img (image_for_js img).
Proof.
  unfold element_of. split_and!.
  - by rewrite filename_read_back, escape_for_js_backslashed.
  - by rewrite public_url_read_back, escape_for_js_backslashed.
  - apply size_read_back.
  - unfold image_for_js. by rewrite !get_cons.
  - unfold image_for_js. rewrite !get_cons. cbn.
    by destruct (content_type img) as [[|]|].
  - unfold image_for_js. rewrite !get_cons. cbn.
    by destruct (date_str img) as [[|]|].
  - unfold image_for_js. rewrite !get_cons. cbn.
    by destruct (date_display img).
  - intros k v. unfold image_for_js, element_keys. rewrite !get_cons.
    repeat match goal with
    | |- context [String.eqb ?a k] =>
        destruct (String.eqb_spec a k) as [<-|?]
    end; intros H; try discriminate H; set_solver.
Qed.

(** C6. For a given list of images, the page written by
    generate_html_gallery holds the expected count, order and pagination:
    total_images is len(images), total_pages is the ceiling page count,
    images_per_page is the argument, and the JSON array has one element for
    each image, in the order of the list: the element at the place of an
    image has the seven keys and, under them, the fields of that image. *)
Theorem generated_page_embeds_metadata (t : TemplateText)
    (self : GCSImageGallery) (images : list ImageInfo) (output_file : string)
    (images_per_page : Z) (title : string) (fs : FileSystem) :
  1 <= images_per_page → can_write fs output_file = true →
  ∃ (total_pages : Z) (images_json : string) (entries : list Json.value)
    (fs' : FileSystem),
    generate_html_gallery t self images output_file images_per_page title fs
    = Ok fs'
    ∧ files fs' !! output_file
      = Some (page_text t title (len images) images_per_page total_pages
                images_json)
    ∧ is_ceiling (len images) images_per_page total_pages
    ∧ Json.loads images_json = Some (Json.Arr entries)
    ∧ length entries = length images
    ∧ ∀ (i : nat) (img : ImageInfo),
        images !! i = Some img →
        ∃ e : Json.value, entries !! i = Some e ∧ element_of img e.
Proof.
  intros Hd Hw.
  exists ((len images + images_per_page - 1) / images_per_page),
    (Json.dumps (Json.Arr (images_for_js images))),
    (map image_for_js images).
  eexists. split_and!.
  - apply generate_html_gallery_ok; [lia|done].
  - cbn [files]. rewrite lookup_insert_eq. by rewrite html_content_text.
  - apply ceiling_div; [apply len_nonneg|done].
  - apply images_json_reads_back.
  - apply length_map.
  - intros i img Hi. exists (image_for_js img). split.
    + change (map image_for_js images) with (image_for_js <$> images).
      by rewrite list_lookup_fmap, Hi.
    + apply image_for_js_element.
Qed.

Lemma generated_page_embeds_metadata_witness :
  1 <= 2 ∧ can_write Sample.disk "gallery.html" = true
  ∧ ∃ (total_pages : Z) (images_json : string) (entries : list Json.value)
      (fs' : FileSystem),
      generate_html_gallery Sample.text Sample.photos_gallery Sample.photos_images
        "gallery.html" 2 "GCS Image Gallery" Sample.disk
      = Ok fs'
      ∧ files fs' !! "gallery.html"%string
        = Some (page_text Sample.text "GCS Image Gallery"
                  (len Sample.photos_images) 2 total_pages images_json)
      ∧ is_ceiling (len Sample.photos_images) 2 total_pages
      ∧ Json.loads images_json = Some (Json.Arr entries)
      ∧ length entries = length Sample.photos_images
      ∧ ∀ (i : nat) (img : ImageInfo),
          Sample.photos_images !! i = Some img →
          ∃ e : Json.value, entries !! i = Some e ∧ element_of img e.
Proof.
  split; [lia|]. split; [reflexivity|].
  apply (generated_page_embeds_metadata Sample.text Sample.photos_gallery
           Sample.photos_images "gallery.html" 2 "GCS Image Gallery" Sample.disk);
    [lia|reflexivity].
Defined.

(** ** The doubled escape *)

(** C7 does not hold of the code.  The bucket [Sample.quoted] holds one image
    named a, double quote, b.jpg, which cannot be signed.  The array written
    into the page reads back with a backslash before the quote, in the file
    name and in the URL: the replacements of lines 627 and 630 are applied
    before json.dumps, which escapes the string once more. *)
Theorem quoted_name_is_escaped_twice :
  get_image_list Sample.quoted_gallery Sample.clock = Ok [Sample.quoted_image]
  ∧ filename Sample.quoted_image = Sample.quoted_name
  ∧ public_url Sample.quoted_image
    = "https://storage.googleapis.com/quoted/" +:+ Sample.quoted_name
  ∧ ∃ (images_json : string) (entry : Json.value) (fs' : FileSystem),
      generate_html_gallery Sample.text Sample.quoted_gallery
        [Sample.quoted_image] "gallery.html" 250 "GCS Image Gallery" Sample.disk
      = Ok fs'
      ∧ files fs' !! "gallery.html"%string
        = Some (page_text Sample.text "GCS Image Gallery" 1 250 1 images_json)
      ∧ Json.loads images_json = Some (Json.Arr [entry])
      ∧ Json.get "filename" entry = Some (Json.Str Sample.quoted_name_read_back)
      ∧ Json.get "public_url" entry
        = Some (Json.Str ("https://storage.googleapis.com/quoted/"
                          +:+ Sample.quoted_name_read_back))
      ∧ Sample.quoted_name_read_back ≠ Sample.quoted_name.
Proof.
  split; [exact quoted_listing|].
  split; [vm_compute; reflexivity|].
  split; [vm_compute; reflexivity|].
  exists (Json.dumps (Json.Arr (images_for_js [Sample.quoted_image]))),
    (image_for_js Sample.quoted_image).
  eexists. split_and!.
  - apply generate_html_gallery_ok; [lia|reflexivity].
  - cbn [files]. rewrite lookup_insert_eq. by rewrite html_content_text.
  - apply images_json_reads_back.
  - vm_compute. reflexivity.
  - vm_compute. reflexivity.
  - vm_compute. discriminate.
Qed.

(** ** Null fields *)

(** C9, as stated, fails: the size of an entry is written as it is, and an
    entry whose size is None has a null size in the array of the page. *)
Lemma size_may_be_null :
  ¬ (∀ (images : list ImageInfo) (entries : list Json.value) (e : Json.value)
       (k : string),
       Json.loads (Json.dumps (Json.Arr (images_for_js images)))
       = Some (Json.Arr entries) →
       e ∈ entries → Json.get k e = Some Json.Null → k = "created"%string).
Proof.
  intros H.
  specialize (H [Sample.sizeless] [image_for_js Sample.sizeless]
                (image_for_js Sample.sizeless) "size"%string).
  discriminate H.
  - vm_compute. reflexivity.
  - apply list_elem_of_In. left. reflexivity.
  - vm_compute. reflexivity.
Qed.

(** C9, as the code has it.  In the array of the page, the fields filename,
    public_url, date_str, content_type and date_display of every entry are
    strings, never null: a missing value is '' for filename, public_url and
    date_str, image/unknown for content_type and Unknown Date for
    date_display.  Only created and size may be null. *)
Theorem embedded_fields_are_not_null (images : list ImageInfo) :
  ∃ entries : list Json.value,
    Json.loads (Json.dumps (Json.Arr (images_for_js images)))
    = Some (Json.Arr entries)
    ∧ Forall2
        (fun img e =>
           (∃ s, Json.get "filename" e = Some (Json.Str s)
                 ∧ (filename img = EmptyString → s = EmptyString))
           ∧ (∃ s, Json.get "public_url" e = Some (Json.Str s)
                   ∧ (public_url img = EmptyString → s = EmptyString))
           ∧ (∃ s, Json.get "date_str" e = Some (Json.Str s)
                   ∧ (truthy (date_str img) = false → s = EmptyString))
           ∧ (∃ s, Json.get "content_type" e = Some (Json.Str s)
                   ∧ (truthy (content_type img) = false
                      → s = "image/unknown"%string))
           ∧ (∃ s, Json.get "date_display" e = Some (Json.Str s)
                   ∧ (date_display img = EmptyString → s = "Unknown Date"%string))
           ∧ (∀ k, Json.get k e = Some Json.Null →
                   (k = "created"%string ∧ created img = None)
                   ∨ (k = "size"%string ∧ size img = None)))
        images entries.
Proof.
  exists (map image_for_js images). split; [apply images_json_reads_back|].
  change (map image_for_js images) with (image_for_js <$> images).
  apply Forall2_fmap_r, Forall_Forall2_diag, Forall_forall.
  intros img _. unfold image_for_js. split_and!.
  - eexists. split; [reflexivity|]. by intros ->.
  - eexists. split; [reflexivity|]. by intros ->.
  - eexists. split; [reflexivity|]. by destruct (date_str img) as [[|]|].
  - eexists. split; [reflexivity|]. by destruct (content_type img) as [[|]|].
  - eexists. split; [reflexivity|]. by intros ->.
  - intros k. rewrite !get_cons.
    repeat match goal with
    | |- context [String.eqb ?a k] =>
        destruct (String.eqb_spec a k) as [<-|?]
    end; try done.
    + destruct (size img); [done|]. intros _. by right.
    + destruct (created img); [done|]. intros _. by left.
Qed.

Lemma embedded_fields_are_not_null_witness :
  ∃ entries : list Json.value,
    Json.loads (Json.dumps (Json.Arr (images_for_js [Sample.sizeless])))
    = Some (Json.Arr entries)
    ∧ length entries = 1%nat.
Proof.
  destruct (embedded_fields_are_not_null [Sample.sizeless]) as (entries & Hl & Hf).
  exists entries. split; [exact Hl|].
  apply Forall2_length in Hf. symmetry. exact Hf.
Defined.

(** * Further properties of the script *)

(** ** The folder prefix *)

Lemma rstrip_snoc (c : ascii) (s : string) :
  rstrip c (s +:+ String c EmptyString) = rstrip c s.
Proof.
  induction s as [|a s IH].
  - rewrite str_app_nil_l. cbn [rstrip]. by rewrite Ascii.eqb_refl.
  - rewrite str_app_cons. cbn [rstrip]. by rewrite IH.
Qed.

Lemma slashes_snoc (n : nat) :
  Further.slashes (S n) = Further.slashes n +:+ String SLASH EmptyString.
Proof.
  induction n as [|n IH]; [done|].
  change (Further.slashes (S (S n))) with (String SLASH (Further.slashes (S n))).
  rewrite IH at 1.
  change (Further.slashes (S n)) with (String SLASH (Further.slashes n)).
  by rewrite str_app_cons.
Qed.

Lemma rstrip_slashes (s : string) (n : nat) :
  rstrip SLASH (s +:+ Further.slashes n) = rstrip SLASH s.
Proof.
  induction n as [|n IH]; [by rewrite str_app_nil_r|].
  by rewrite slashes_snoc, <- str_app_assoc, rstrip_snoc.
Qed.

(** What [rstrip] leaves does not end with the character, and what it took
    away is a run of that character. *)
Lemma rstrip_spec (s : string) :
  endswith (rstrip SLASH s) (String SLASH EmptyString) = false
  ∧ ∃ n, s = rstrip SLASH s +:+ Further.slashes n.
Proof.
  induction s as [|a s [IH1 [n IH2]]].
  - split; [done|]. by exists O.
  - cbn [rstrip]. destruct (rstrip SLASH s) as [|b r] eqn:Hr.
    + rewrite str_app_nil_l in IH2. destruct (Ascii.eqb a SLASH) eqn:Ha.
      * apply Ascii.eqb_eq in Ha as ->. split; [done|].
        exists (S n). by rewrite IH2.
      * split.
        -- unfold endswith. cbn. by rewrite Ha.
        -- exists n. by rewrite str_app_cons, str_app_nil_l, IH2.
    + split.
      * destruct (endswith (String a (String b r)) (String SLASH EmptyString)) eqn:He;
          [|done].
        apply endswith_spec in He as [pre He].
        assert (endswith (String b r) (String SLASH EmptyString) = true); [|congruence].
        apply endswith_spec. destruct pre as [|p pre].
        -- by rewrite str_app_nil_l in He.
        -- rewrite str_app_cons in He. injection He as _ He. eauto.
      * exists n. by rewrite str_app_cons, <- IH2.
Qed.

(** X1. __init__ turns the folder into a prefix: an empty folder gives the
    empty prefix; any other folder gives the folder without its trailing
    slashes, followed by one slash.  However many slashes are written after
    a folder name, the prefix is the same. *)
Theorem init_folder_prefix (storage : Client) (project bucket folder : string) :
  folder ≠ EmptyString →
  folder_path (init storage project bucket EmptyString) = EmptyString
  ∧ (∃ (stem : string) (n : nat),
       folder = stem +:+ Further.slashes n
       ∧ endswith stem (String SLASH EmptyString) = false
       ∧ folder_path (init storage project bucket folder)
         = stem +:+ String SLASH EmptyString)
  ∧ (∀ k : nat,
       folder_path (init storage project bucket (folder +:+ Further.slashes k))
       = folder_path (init storage project bucket folder)).
Proof.
  intros Hne. split; [done|]. split.
  - destruct (rstrip_spec folder) as [He [n Hn]].
    exists (rstrip SLASH folder), n. split_and!; [done..|].
    unfold init. cbn [folder_path]. by destruct folder.
  - intros k. unfold init. cbn [folder_path].
    destruct folder as [|a f]; [done|].
    rewrite str_app_cons, <- str_app_cons, rstrip_slashes. done.
Qed.

Lemma init_folder_prefix_witness :
  "trip//"%string ≠ EmptyString
  ∧ folder_path (init Sample.photos "proj" "photos" ("trip//" +:+ Further.slashes 2))
    = folder_path (init Sample.photos "proj" "photos" "trip//").
Proof.
  split; [discriminate|].
  apply (init_folder_prefix Sample.photos "proj" "photos" "trip//"). discriminate.
Defined.

(** ** Which objects are listed *)

Lemma startswith_spec (s p : string) :
  startswith s p = true ↔ ∃ rest, s = p +:+ rest.
Proof.
  revert s. induction p as [|a p IH]; intros s.
  - split; [|done]. intros _. by exists s.
  - destruct s as [|b s]; cbn [startswith].
    + split; [done|]. intros [rest E]. by rewrite str_app_cons in E.
    + rewrite andb_true_iff, Ascii.eqb_eq, IH. split.
      * intros [-> [rest ->]]. exists rest. by rewrite str_app_cons.
      * intros [rest E]. rewrite str_app_cons in E. injection E as -> ->. eauto.
Qed.

Lemma list_blobs_spec (c : Client) (bucket prefix : string) (blobs : list Blob) :
  list_blobs c bucket prefix = Ok blobs →
  ∃ objs, buckets c !! bucket = Some objs
          ∧ blobs = filter (fun b => startswith (blob_name b) prefix = true) objs.
Proof.
  unfold list_blobs. destruct (buckets c !! bucket) as [objs|]; [|done].
  intros [= <-]. eauto.
Qed.

(** X2. Every entry that get_image_list returns stands for an object of the
    bucket, and its name begins with the folder prefix of the gallery. *)
Theorem entries_are_under_the_prefix (self : GCSImageGallery) (clock : Z → Z)
    (images : list ImageInfo) (img : ImageInfo) :
  get_image_list self clock = Ok images → img ∈ images →
  ∃ (objs : list Blob) (b : Blob) (rest : string),
    buckets (client self) !! bucket_name self = Some objs
    ∧ b ∈ objs
    ∧ name img = blob_name b
    ∧ name img = folder_path self +:+ rest.
Proof.
  intros H Hin.
  destruct (get_image_list_entry self clock images img H Hin)
    as (blobs & k & b & meta & Hl & Hk & _ & ->).
  apply list_blobs_spec in Hl as (objs & Hobjs & ->).
  apply list_elem_of_lookup_2 in Hk. unfold image_blobs in Hk.
  apply list_elem_of_filter in Hk as [_ Hk].
  apply list_elem_of_filter in Hk as [Hp Hb].
  apply startswith_spec in Hp as [rest Hrest].
  exists objs, b, rest. rewrite image_info_name. done.
Qed.

Lemma entries_are_under_the_prefix_witness :
  get_image_list Sample.photos_gallery Sample.clock = Ok Sample.photos_images
  ∧ image_info Sample.photos_gallery (Sample.clock 2) (Sample.blob "trip/c.gif")
      Sample.meta ∈ Sample.photos_images
  ∧ ∃ (objs : list Blob) (b : Blob) (rest : string),
      buckets (client Sample.photos_gallery) !! bucket_name Sample.photos_gallery
      = Some objs
      ∧ b ∈ objs
      ∧ name (image_info Sample.photos_gallery (Sample.clock 2)
                (Sample.blob "trip/c.gif") Sample.meta) = blob_name b
      ∧ name (image_info Sample.photos_gallery (Sample.clock 2)
                (Sample.blob "trip/c.gif") Sample.meta)
        = folder_path Sample.photos_gallery +:+ rest.
Proof.
  split; [vm_compute; reflexivity|].
  split; [apply list_elem_of_In; vm_compute; tauto|].
  apply (entries_are_under_the_prefix Sample.photos_gallery Sample.clock
           Sample.photos_images).
  - vm_compute. reflexivity.
  - apply list_elem_of_In. vm_compute. tauto.
Defined.

(** ** Which exception the listing raises *)

Lemma collect_raises (self : GCSImageGallery) (clock : Z → Z) (blobs : list Blob) :
  ∀ (images : list ImageInfo) (count : Z) (e : exn),
    collect self clock blobs images count = Raise e
    ↔ ∃ before b after,
        blobs = before ++ b :: after
        ∧ (∀ b', b' ∈ before → is_image (blob_name b') = true →
                 ∃ meta, blob_reload b' = Ok meta)
        ∧ is_image (blob_name b) = true
        ∧ blob_reload b = Raise e.
Proof.
  induction blobs as [|b blobs IH]; intros images count e; cbn [collect].
  - split; [done|]. intros (before & b & after & E & _). by destruct before.
  - destruct (is_image (blob_name b)) eqn:Hi.
    + destruct (blob_reload b) as [meta|e'] eqn:Hr; cbn.
      * rewrite IH. split.
        -- intros (before & b0 & after & -> & Hall & Hi0 & Hr0).
           exists (b :: before), b0, after. split_and!; [done| |done..].
           intros b' [->|Hb']%elem_of_cons Hi'; eauto.
        -- intros (before & b0 & after & E & Hall & Hi0 & Hr0).
           destruct before as [|b1 before].
           { injection E as <- _. congruence. }
           injection E as <- ->.
           exists before, b0, after. split_and!; [done| |done..].
           intros b' Hb' Hi'. apply Hall; [by right|done].
      * split.
        -- intros [= <-]. exists [], b, blobs. split_and!; [done| |done..].
           intros b' Hb'. by apply elem_of_nil in Hb'.
        -- intros (before & b0 & after & E & Hall & Hi0 & Hr0).
           destruct before as [|b1 before].
           { injection E as <- _. congruence. }
           injection E as <- ->.
           destruct (Hall b) as [meta Hm]; [by left|done|congruence].
    + rewrite IH. split.
      * intros (before & b0 & after & -> & Hall & Hi0 & Hr0).
        exists (b :: before), b0, after. split_and!; [done| |done..].
        intros b' [->|Hb']%elem_of_cons Hi'; [congruence|eauto].
      * intros (before & b0 & after & E & Hall & Hi0 & Hr0).
        destruct before as [|b1 before].
        { injection E as <- _. congruence. }
        injection E as <- ->.
        exists before, b0, after. split_and!; [done| |done..].
        intros b' Hb' Hi'. apply Hall; [by right|done].
Qed.

(** X3. When the listing of the bucket has returned its objects,
    get_image_list raises exactly when reload fails on an image among them,
    and what it raises is the exception of the first image of the listing
    on which reload fails.  The objects after that image are not looked at,
    a failing reload of an object that is no image is never seen, and no
    failure to sign a URL is raised. *)
Theorem first_failing_reload_is_raised (self : GCSImageGallery)
    (clock : Z → Z) (blobs : list Blob) (e : exn) :
  list_blobs (client self) (bucket_name self) (folder_path self) = Ok blobs →
  get_image_list self clock = Raise e
  ↔ ∃ before b after,
      blobs = before ++ b :: after
      ∧ (∀ b', b' ∈ before → is_image (blob_name b') = true →
               ∃ meta, blob_reload b' = Ok meta)
      ∧ is_image (blob_name b) = true
      ∧ blob_reload b = Raise e.
Proof.
  intros Hl. unfold get_image_list. rewrite Hl.
  cbv [mbind result_bind Py.bind].
  pose proof (collect_raises self clock blobs [] 0 e) as Hc.
  destruct (collect self clock blobs [] 0) as [res|e'] eqn:Hcol.
  - split; [done|]. intros Hex. apply Hc in Hex. done.
  - split.
    + intros [= <-]. by apply Hc.
    + intros Hex. apply Hc in Hex. by injection Hex as ->.
Qed.

Lemma first_failing_reload_is_raised_witness :
  list_blobs (client Cases.fading_gallery) (bucket_name Cases.fading_gallery)
    (folder_path Cases.fading_gallery)
  = Ok Cases.fading_objects
  ∧ get_image_list Cases.fading_gallery Sample.clock = Raise NotFound.
Proof.
  split; [vm_compute; reflexivity|].
  refine (proj2 (first_failing_reload_is_raised Cases.fading_gallery
                   Sample.clock Cases.fading_objects NotFound _) _).
  - vm_compute. reflexivity.
  - exists [Sample.blob "a.png"; Cases.unreadable "notes.txt"],
      (Cases.gone "b.png"), [Cases.unreadable "c.png"].
    split; [reflexivity|]. split; [|split; [vm_compute|]; reflexivity].
    intros b' Hb' Hi'. apply list_elem_of_In in Hb'.
    destruct Hb' as [<-|[<-|[]]].
    + exists Sample.meta. reflexivity.
    + vm_compute in Hi'. discriminate Hi'.
Defined.

(** ** Objects that are no images *)

Lemma collect_image_blobs (self : GCSImageGallery) (clock : Z → Z) (blobs : list Blob) :
  ∀ (images : list ImageInfo) (count : Z),
    collect self clock (image_blobs blobs) images count
    = collect self clock blobs images count.
Proof.
  induction blobs as [|b blobs IH]; intros images count; [done|].
  rewrite image_blobs_cons. cbn [collect].
  destruct (is_image (blob_name b)) eqn:Hi; [|apply IH].
  cbn [collect]. rewrite Hi.
  destruct (blob_reload b) as [meta|e]; [|done].
  cbv [mbind result_bind Py.bind]. apply IH.
Qed.

Lemma image_info_same_bucket (self self' : GCSImageGallery) (now : Z) (b : Blob)
    (meta : Metadata) :
  bucket_name self' = bucket_name self →
  image_info self' now b meta = image_info self now b meta.
Proof.
  intros E. unfold image_info, access_url, fallback_url. by rewrite E.
Qed.

Lemma collect_same_bucket (self self' : GCSImageGallery) (clock : Z → Z)
    (blobs : list Blob) :
  bucket_name self' = bucket_name self →
  ∀ (images : list ImageInfo) (count : Z),
    collect self' clock blobs images count = collect self clock blobs images count.
Proof.
  intros E. induction blobs as [|b blobs IH]; intros images count; [done|].
  cbn [collect]. destruct (is_image (blob_name b)); [|apply IH].
  destruct (blob_reload b) as [meta|e]; [|done].
  cbv [mbind result_bind Py.bind].
  rewrite (image_info_same_bucket self self') by done. apply IH.
Qed.

Lemma filter_image_blobs (P : Blob → Prop) `{∀ b, Decision (P b)} (objs : list Blob) :
  image_blobs (filter P objs) = filter P (image_blobs objs).
Proof.
  unfold image_blobs. induction objs as [|b objs IH]; [done|].
  rewrite !filter_cons.
  destruct (decide (P b)), (decide (is_image (blob_name b) = true));
    rewrite ?filter_cons, ?decide_True, ?decide_False by done; by rewrite IH.
Qed.

(** X4. The objects of the bucket that are no images have no part in the
    listing: they are not reloaded, not signed, and they do not move the
    clock readings of the images.  A bucket from which they are removed
    gives the same result, and the same exception when the listing
    raises. *)
Theorem other_objects_do_not_matter (self : GCSImageGallery) (clock : Z → Z)
    (objs : list Blob) :
  buckets (client self) !! bucket_name self = Some objs →
  get_image_list (Further.with_objects self (image_blobs objs)) clock
  = get_image_list self clock.
Proof.
  intros Hobjs. unfold get_image_list, list_blobs, Further.with_objects.
  cbn [client bucket_name folder_path buckets].
  rewrite lookup_insert_eq, Hobjs. cbv [mbind result_bind Py.bind].
  rewrite <- filter_image_blobs, collect_image_blobs.
  by rewrite (collect_same_bucket self).
Qed.

Lemma other_objects_do_not_matter_witness :
  buckets (client Sample.photos_gallery) !! bucket_name Sample.photos_gallery
  = Some [ Sample.blob "trip/b_DT20250801_1.JPG"; Sample.blob "trip/notes.txt";
           Sample.blob "trip/a_DT20250802_2.png"; Sample.blob "trip/c.gif" ]
  ∧ get_image_list
      (Further.with_objects Sample.photos_gallery
         (image_blobs
            [ Sample.blob "trip/b_DT20250801_1.JPG"; Sample.blob "trip/notes.txt";
              Sample.blob "trip/a_DT20250802_2.png"; Sample.blob "trip/c.gif" ]))
      Sample.clock
    = get_image_list Sample.photos_gallery Sample.clock.
Proof.
  split; [vm_compute; reflexivity|].
  apply (other_objects_do_not_matter Sample.photos_gallery Sample.clock).
  vm_compute. reflexivity.
Defined.

(** ** Order of the result *)

(** X5. The sort of get_image_list is stable: the entries that have the same
    file name (objects of different folders under the prefix) come in the
    order of the listing. *)
Theorem equal_filenames_keep_listing_order (self : GCSImageGallery)
    (clock : Z → Z) (images : list ImageInfo) :
  get_image_list self clock = Ok images →
  ∃ blobs collected,
    list_blobs (client self) (bucket_name self) (folder_path self) = Ok blobs
    ∧ collected_from self clock 0 blobs collected
    ∧ ∀ f : string,
        filter (fun img => filename img = f) images
        = filter (fun img => filename img = f) collected.
Proof.
  intros (blobs & collected & Hl & Hc & ->)%get_image_list_inv.
  exists blobs, collected. split_and!; [done..|].
  intros f. apply sort_stable.
Qed.

Lemma equal_filenames_keep_listing_order_witness :
  get_image_list Cases.mixed_gallery Sample.clock = Ok Cases.mixed_images
  ∧ ∃ blobs collected,
      list_blobs (client Cases.mixed_gallery) (bucket_name Cases.mixed_gallery)
        (folder_path Cases.mixed_gallery) = Ok blobs
      ∧ collected_from Cases.mixed_gallery Sample.clock 0 blobs collected
      ∧ ∀ f : string,
          filter (fun img => filename img = f) Cases.mixed_images
          = filter (fun img => filename img = f) collected.
Proof.
  split; [vm_compute; reflexivity|].
  apply (equal_filenames_keep_listing_order Cases.mixed_gallery Sample.clock).
  vm_compute. reflexivity.
Defined.

Lemma strongly_sorted_lookup {A : Type} (R : A → A → Prop) (l : list A)
    (i j : nat) (x y : A) :
  StronglySorted R l → (i < j)%nat → l !! i = Some x → l !! j = Some y → R x y.
Proof.
  intros Hs. revert i j. induction Hs as [|a l Hs IH Ha]; intros i j Hij Hi Hj.
  - done.
  - destruct j as [|j]; [lia|]. destruct i as [|i].
    + injection Hi as <-. cbn in Hj.
      rewrite Forall_forall in Ha. apply Ha. by eapply list_elem_of_lookup_2.
    + cbn in Hi, Hj. apply (IH i j); [lia|done..].
Qed.

Lemma leb_starts_in (s t : string) :
  Further.starts_in "A" "Z" s = true → Further.starts_in "a" "z" t = true →
  String.leb s t = true ∧ String.leb t s = false.
Proof.
  destruct s as [|a s]; [done|]. destruct t as [|b t]; [done|].
  cbn [Further.starts_in]. rewrite !andb_true_iff, !Z.leb_le.
  change (code "A") with 65. change (code "Z") with 90.
  change (code "a") with 97. change (code "z") with 122.
  intros [? ?] [? ?]. rewrite !leb_cons.
  assert ((code a <? code b) = true) as -> by lia.
  assert ((code b <? code a) = false) as -> by lia. done.
Qed.

(** X6. The order of the result is that of the code points, not that of a
    dictionary: an entry whose file name begins with an ASCII capital comes
    before every entry whose file name begins with an ASCII small letter. *)
Theorem capitals_come_first (self : GCSImageGallery) (clock : Z → Z)
    (images : list ImageInfo) (x y : ImageInfo) :
  get_image_list self clock = Ok images →
  x ∈ images → y ∈ images →
  Further.starts_in "A" "Z" (filename x) = true →
  Further.starts_in "a" "z" (filename y) = true →
  Further.before images x y ∧ ¬ Further.before images y x.
Proof.
  intros H Hx Hy Hcap Hsmall.
  destruct (leb_starts_in _ _ Hcap Hsmall) as [Hle Hnle].
  apply get_image_list_inv in H as (blobs & collected & _ & _ & ->).
  pose proof (sort_sorted filename collected) as Hs.
  assert (Hno : ∀ i j, (i < j)%nat → sort filename collected !! i = Some y →
                       sort filename collected !! j = Some x → False).
  { intros i j Hij Hi Hj.
    pose proof (strongly_sorted_lookup _ _ i j y x Hs Hij Hi Hj) as Hyx.
    unfold key_le in Hyx. congruence. }
  split.
  - apply list_elem_of_lookup in Hx as [i Hi].
    apply list_elem_of_lookup in Hy as [j Hj].
    exists i, j. split_and!; [|done..].
    destruct (Nat.lt_trichotomy i j) as [?|[->|Hgt]]; [done| |].
    + rewrite Hi in Hj. injection Hj as ->. congruence.
    + destruct (Hno j i Hgt Hj Hi).
  - intros (i & j & Hij & Hi & Hj). exact (Hno i j Hij Hi Hj).
Qed.

Lemma capitals_come_first_witness :
  get_image_list Cases.mixed_gallery Sample.clock = Ok Cases.mixed_images
  ∧ image_info Cases.mixed_gallery (Sample.clock 0) (Sample.blob "Zebra.jpg")
      Sample.meta ∈ Cases.mixed_images
  ∧ image_info Cases.mixed_gallery (Sample.clock 2) (Sample.blob "apple.jpg")
      Sample.meta ∈ Cases.mixed_images
  ∧ Further.before Cases.mixed_images
      (image_info Cases.mixed_gallery (Sample.clock 0) (Sample.blob "Zebra.jpg")
         Sample.meta)
      (image_info Cases.mixed_gallery (Sample.clock 2) (Sample.blob "apple.jpg")
         Sample.meta).
Proof.
  split; [vm_compute; reflexivity|].
  split; [apply list_elem_of_In; vm_compute; tauto|].
  split; [apply list_elem_of_In; vm_compute; tauto|].
  refine (proj1 (capitals_come_first Cases.mixed_gallery Sample.clock
                   Cases.mixed_images _ _ _ _ _ _ _)).
  - vm_compute. reflexivity.
  - apply list_elem_of_In. vm_compute. tauto.
  - apply list_elem_of_In. vm_compute. tauto.
  - vm_compute. reflexivity.
  - vm_compute. reflexivity.
Defined.

(** ** File names of the entries *)

Lemma occurs_app (c : ascii) (s t : string) :
  occurs c (s +:+ t) = occurs c s || occurs c t.
Proof.
  induction s as [|a s IH]; [done|].
  by rewrite str_app_cons, !occurs_cons, IH, orb_assoc.
Qed.

Lemma lower_app (s t : string) : lower (s +:+ t) = lower s +:+ lower t.
Proof.
  induction s as [|a s IH]; [done|].
  rewrite str_app_cons. cbn [lower]. by rewrite IH, str_app_cons.
Qed.

(** A suffix without a slash lies after the last slash. *)
Lemma suffix_after_slash (a b suffix : string) :
  occurs SLASH suffix = false →
  (∃ pre, a +:+ String SLASH b = pre +:+ suffix) → ∃ pre, b = pre +:+ suffix.
Proof.
  intros Hs. induction a as [|x a IH]; intros [pre E].
  - rewrite str_app_nil_l in E. destruct pre as [|p pre].
    + rewrite str_app_nil_l in E.
      rewrite <- E, occurs_cons, Ascii.eqb_refl in Hs. discriminate Hs.
    + rewrite str_app_cons in E. injection E as _ ->. eauto.
  - rewrite str_app_cons in E. destruct pre as [|p pre].
    + rewrite str_app_nil_l in E. rewrite <- E, occurs_cons, occurs_app in Hs.
      rewrite occurs_cons, Ascii.eqb_refl in Hs.
      rewrite orb_true_l, !orb_true_r in Hs. discriminate Hs.
    + rewrite str_app_cons in E. injection E as _ E. apply IH. eauto.
Qed.

Lemma extensions_have_no_slash (ext : string) :
  In ext image_extensions → occurs SLASH ext = false.
Proof. cbn. intros H. repeat destruct H as [<-|H]; done. Qed.

Lemma is_image_basename (p : string) :
  is_image p = true → is_image (basename p) = true.
Proof.
  rewrite !is_image_spec. intros (ext & pre & Hin & E).
  destruct (basename_spec p) as [_ [Hp|[dir Hp]]]; [rewrite <- Hp; eauto|].
  exists ext. rewrite Hp, lower_app in E. cbn [lower] in E.
  change (lower_char SLASH) with SLASH in E.
  destruct (suffix_after_slash _ _ ext (extensions_have_no_slash ext Hin)
              (ex_intro _ pre E)) as [pre' E'].
  eauto.
Qed.

(** X7. The file name of every entry is the last component of the object
    name: it has no slash, the name is the file name or a directory part, a
    slash and the file name; it is never empty, and it carries the image
    extension of the object. *)
Theorem entries_have_image_file_names (self : GCSImageGallery) (clock : Z → Z)
    (images : list ImageInfo) (img : ImageInfo) :
  get_image_list self clock = Ok images → img ∈ images →
  occurs SLASH (filename img) = false
  ∧ (name img = filename img
     ∨ ∃ dir, name img = dir +:+ String SLASH (filename img))
  ∧ filename img ≠ EmptyString
  ∧ ∃ ext pre : string,
      In ext [".jpg"; ".jpeg"; ".png"; ".gif"; ".bmp"; ".webp"; ".tiff"; ".svg"]%string
      ∧ lower (filename img) = pre +:+ ext.
Proof.
  intros H Hin.
  destruct (get_image_list_entry self clock images img H Hin)
    as (blobs & k & b & meta & _ & Hk & _ & ->).
  rewrite image_info_filename, image_info_name.
  apply list_elem_of_lookup_2 in Hk. unfold image_blobs in Hk.
  apply list_elem_of_filter in Hk as [Hi _].
  apply is_image_basename in Hi.
  destruct (basename_spec (blob_name b)) as [Hno Hsplit].
  split_and!; [done..| |].
  - intros E. rewrite E in Hi. done.
  - by apply is_image_spec.
Qed.

Lemma entries_have_image_file_names_witness :
  get_image_list Sample.photos_gallery Sample.clock = Ok Sample.photos_images
  ∧ image_info Sample.photos_gallery (Sample.clock 2) (Sample.blob "trip/c.gif")
      Sample.meta ∈ Sample.photos_images
  ∧ filename (image_info Sample.photos_gallery (Sample.clock 2)
                (Sample.blob "trip/c.gif") Sample.meta) ≠ EmptyString.
Proof.
  split; [vm_compute; reflexivity|].
  split; [apply list_elem_of_In; vm_compute; tauto|].
  refine (proj1 (proj2 (proj2 (entries_have_image_file_names
            Sample.photos_gallery Sample.clock Sample.photos_images _ _ _)))).
  - vm_compute. reflexivity.
  - apply list_elem_of_In. vm_compute. tauto.
Defined.

(** ** Dates of the entries *)

Lemma zero_pad_head (w : nat) (n : Z) :
  ∃ c s, zero_pad w n = String c s
         ∧ (Datetime.is_digit c = true ∨ c = "-"%char).
Proof.
  unfold zero_pad.
  destruct (str_of_int_head n) as (c & s & Hs & Hc).
  destruct (w - String.length (str_of_int n))%nat as [|k].
  - cbn [repeat String.concat]. rewrite str_app_nil_l. eauto.
  - cbn [repeat]. rewrite concat_empty_cons, str_app_assoc, str_app_cons.
    eexists _, _. split; [reflexivity|by left].
Qed.

Lemma date_display_forms (f : string) :
  match Re.search_DT_d8 f with
  | Some d =>
      date_of_filename f = (Some d, d)
      ∨ date_of_filename f = (Some d, day_and_month d)
  | None => date_of_filename f = (None, "Unknown Date"%string)
  end.
Proof.
  destruct (Re.search_DT_d8 f) as [d|] eqn:Hs.
  - destruct (is_calendar_date d) eqn:Hv.
    + right. by apply date_of_filename_calendar.
    + left. by apply date_of_filename_not_calendar.
  - by apply date_of_filename_none.
Qed.

Lemma digits_head (d : string) :
  String.length d = 8%nat → all_digits d = true →
  ∃ c s, d = String c s ∧ Datetime.is_digit c = true.
Proof.
  destruct d as [|c s]; [done|]. rewrite all_digits_cons.
  intros _ [Hc _]%andb_true_iff. eauto.
Qed.

Lemma day_and_month_head (d : string) :
  ∃ c s, day_and_month d = String c s
         ∧ (Datetime.is_digit c = true ∨ c = "-"%char).
Proof.
  unfold day_and_month. destruct (ymd d) as [[y m] dd].
  destruct (zero_pad_head 2 dd) as (c & s & Hs & Hc).
  rewrite Hs, str_app_cons. eauto.
Qed.

(** X8. The date fields of every entry: date_str, when it is not None, is
    eight digits that stand in the file name after DT; date_display is never
    empty, and it is Unknown Date exactly when date_str is None.  So the
    page gets date_display unchanged, and an empty date_str exactly for the
    entries without a date. *)
Theorem entries_have_date_fields (self : GCSImageGallery) (clock : Z → Z)
    (images : list ImageInfo) (img : ImageInfo) :
  get_image_list self clock = Ok images → img ∈ images →
  (∀ d, date_str img = Some d →
        String.length d = 8%nat ∧ all_digits d = true
        ∧ Further.contains (filename img) ("DT" +:+ d))
  ∧ date_display img ≠ EmptyString
  ∧ (date_str img = None ↔ date_display img = "Unknown Date"%string)
  ∧ Json.get "date_display" (image_for_js img)
    = Some (Json.Str (date_display img))
  ∧ (Json.get "date_str" (image_for_js img) = Some (Json.Str EmptyString)
     ↔ date_str img = None).
Proof.
  intros H Hin.
  destruct (get_image_list_date self clock images img H Hin) as [_ Hd].
  pose proof (date_display_forms (filename img)) as Hforms.
  pose proof (search_DT_d8_spec (filename img)) as Hspec.
  assert (Hjs : ∀ s, date_display img = s → s ≠ EmptyString →
                Json.get "date_display" (image_for_js img) = Some (Json.Str s)).
  { intros s <- Hne. unfold image_for_js. cbn. by destruct (date_display img). }
  destruct (Re.search_DT_d8 (filename img)) as [d|] eqn:Hs.
  - destruct (search_DT_d8_digits _ _ Hs) as [Hl Ha].
    destruct Hspec as (i & (pre & post & E & _) & _).
    destruct (digits_head d Hl Ha) as (c & s & Hcs & Hc).
    assert (Hstr : date_str img = Some d).
    { destruct Hforms as [Hf|Hf]; rewrite Hf in Hd; by injection Hd. }
    assert (Hdisp : ∃ c' s', date_display img = String c' s'
                             ∧ (Datetime.is_digit c' = true ∨ c' = "-"%char)).
    { destruct Hforms as [Hf|Hf]; rewrite Hf in Hd; injection Hd as _ ->.
      - exists c, s. split; [done|by left].
      - apply day_and_month_head. }
    destruct Hdisp as (c' & s' & Hcs' & Hc').
    split_and!.
    + intros d' Hd'. rewrite Hstr in Hd'. injection Hd' as <-.
      split_and!; [done..|]. exists pre, post. by rewrite E, !str_app_assoc.
    + by rewrite Hcs'.
    + rewrite Hstr, Hcs'. split; [done|]. intros [= -> _].
      by destruct Hc' as [Hc'|Hc'].
    + apply Hjs; [done|]. by rewrite Hcs'.
    + rewrite Hstr. split; [|done]. unfold image_for_js. cbn. rewrite Hstr, Hcs.
      done.
  - rewrite Hforms in Hd. injection Hd as Hstr Hdisp.
    split_and!.
    + intros d' Hd'. congruence.
    + by rewrite Hdisp.
    + by rewrite Hstr, Hdisp.
    + apply Hjs; [done|]. by rewrite Hdisp.
    + split; [done|]. intros _. unfold image_for_js. cbn. by rewrite Hstr.
Qed.

Lemma entries_have_date_fields_witness :
  get_image_list Sample.undated_gallery Sample.clock = Ok [Sample.undated_image]
  ∧ Sample.undated_image ∈ [Sample.undated_image]
  ∧ date_display Sample.undated_image ≠ EmptyString.
Proof.
  split; [vm_compute; reflexivity|].
  split; [apply list_elem_of_In; left; reflexivity|].
  refine (proj1 (proj2 (entries_have_date_fields Sample.undated_gallery
            Sample.clock [Sample.undated_image] Sample.undated_image _ _))).
  - vm_compute. reflexivity.
  - apply list_elem_of_In. left. reflexivity.
Defined.

(** ** The characters of the embedded array *)

Lemma all_printable_cons (c : ascii) (s : string) :
  Further.all_printable (String c s)
  = Further.printable c && Further.all_printable s.
Proof. reflexivity. Qed.

Lemma all_printable_app (s t : string) :
  Further.all_printable (s +:+ t)
  = Further.all_printable s && Further.all_printable t.
Proof.
  induction s as [|a s IH]; [done|].
  by rewrite str_app_cons, !all_printable_cons, IH, andb_assoc.
Qed.

Lemma encode_char_printable (c : ascii) :
  Further.all_printable (Json.encode_char c) = true.
Proof. destruct c as [[] [] [] [] [] [] [] []]; reflexivity. Qed.

Lemma encode_string_printable (s : string) :
  Further.all_printable (Json.encode_string s) = true.
Proof.
  unfold Json.encode_string. rewrite all_printable_cons, all_printable_app.
  assert (Further.all_printable (Json.encode_chars s) = true) as ->; [|done].
  induction s as [|c s IH]; [done|]. cbn [Json.encode_chars].
  by rewrite all_printable_app, encode_char_printable, IH.
Qed.

Lemma str_of_int_printable (z : Z) : Further.all_printable (str_of_int z) = true.
Proof.
  assert (Hu : ∀ u, Further.all_printable (NilEmpty.string_of_uint u) = true).
  { induction u; cbn [NilEmpty.string_of_uint]; [done|..];
      by rewrite all_printable_cons, IHu. }
  destruct z as [|p|p]; [done|..].
  - by rewrite str_of_int_pos.
  - by rewrite str_of_int_neg, all_printable_cons, Hu.
Qed.

Lemma concat_printable (l : list string) :
  Forall (fun s => Further.all_printable s = true) l →
  Further.all_printable (String.concat ", " l) = true.
Proof.
  induction 1 as [|x l Hx Hl IH]; [done|].
  destruct l as [|y l]; [done|].
  rewrite concat_cons2, !all_printable_app, Hx, IH. done.
Qed.

Lemma dumps_printable (v : Json.value) : Further.all_printable (Json.dumps v) = true.
Proof.
  induction v as [|b|z|s|l IH|items IH] using value_ind_nested.
  - done.
  - by destruct b.
  - apply str_of_int_printable.
  - apply encode_string_printable.
  - rewrite dumps_arr, all_printable_cons, all_printable_app.
    unfold elems_text. rewrite concat_printable; [done|].
    by apply Forall_map.
  - rewrite dumps_obj, all_printable_cons, all_printable_app.
    unfold members_text. rewrite concat_printable; [done|].
    apply Forall_map. eapply Forall_impl; [exact IH|].
    intros [k v] Hv. unfold member_text. cbn [fst snd] in *.
    by rewrite !all_printable_app, encode_string_printable, Hv.
Qed.

(** X9. Whatever the names, URLs and types of the images, the array that
    json.dumps writes into the page is made of printable ASCII characters
    only: no control character, no character above the tilde. *)
Theorem images_json_is_printable_ascii (images : list ImageInfo) :
  Further.all_printable (Json.dumps (Json.Arr (images_for_js images))) = true.
Proof. apply dumps_printable. Qed.

(** ** What is written as it is *)

Lemma contains_here (s post : string) : Further.contains (s +:+ post) s.
Proof. exists EmptyString, post. by rewrite str_app_nil_l. Qed.

Lemma contains_refl (s : string) : Further.contains s s.
Proof. exists EmptyString, EmptyString. by rewrite str_app_nil_l, str_app_nil_r. Qed.

Lemma contains_app_r (s t sub : string) :
  Further.contains t sub → Further.contains (s +:+ t) sub.
Proof.
  intros (pre & post & ->). exists (s +:+ pre), post. by rewrite str_app_assoc.
Qed.

Lemma contains_app_l (s t sub : string) :
  Further.contains s sub → Further.contains (s +:+ t) sub.
Proof.
  intros (pre & post & ->). exists pre, (post +:+ t). by rewrite !str_app_assoc.
Qed.

Lemma contains_cons (c : ascii) (t sub : string) :
  Further.contains t sub → Further.contains (String c t) sub.
Proof.
  intros (pre & post & ->). exists (String c pre), post. by rewrite str_app_cons.
Qed.

Lemma contains_trans (s t u : string) :
  Further.contains s t → Further.contains t u → Further.contains s u.
Proof.
  intros (pre & post & ->) Hu. by apply contains_app_r, contains_app_l.
Qed.

Lemma encode_char_plain (c : ascii) :
  Further.printable c = true → Ascii.eqb QUOTE c = false →
  Ascii.eqb BACKSLASH c = false →
  Json.encode_char c = String c EmptyString.
Proof. destruct c as [[] [] [] [] [] [] [] []]; intros; done. Qed.

Lemma encode_chars_plain (s : string) :
  Further.all_printable s = true → occurs QUOTE s = false →
  occurs BACKSLASH s = false → Json.encode_chars s = s.
Proof.
  induction s as [|c s IH]; [done|].
  rewrite all_printable_cons, !occurs_cons.
  intros [Hc Hs]%andb_true_iff [Hq Hqs]%orb_false_iff [Hb Hbs]%orb_false_iff.
  cbn [Json.encode_chars]. by rewrite encode_char_plain, IH.
Qed.

Lemma plain_parts (s : string) :
  Further.plain s = true →
  Further.all_printable s = true ∧ occurs QUOTE s = false
  ∧ occurs BACKSLASH s = false.
Proof.
  unfold Further.plain. rewrite !andb_true_iff, !negb_true_iff. tauto.
Qed.

Lemma elems_text_contains (e : Json.value) (l : list Json.value) :
  e ∈ l → Further.contains (elems_text l) (Json.dumps e).
Proof.
  induction l as [|x l IH]; [by intros ?%elem_of_nil|].
  intros [->|Hin]%elem_of_cons.
  - destruct l as [|y l]; [apply contains_refl|].
    rewrite elems_text_cons. apply contains_here.
  - destruct l as [|y l]; [by apply elem_of_nil in Hin|].
    rewrite elems_text_cons. by apply contains_app_r, contains_app_r, IH.
Qed.

Lemma image_for_js_filename (img : ImageInfo) :
  ∃ kv items,
    image_for_js img
    = Json.Obj (("filename"%string, Json.Str (escape_for_js (filename img)))
                  :: kv :: items).
Proof. unfold image_for_js. destruct (filename img); by eexists _, _. Qed.

Lemma page_contains_images_json (t : TemplateText) (images : list ImageInfo)
    (images_per_page : Z) (title : string) (total_pages : Z) :
  Further.contains (html_content t images images_per_page title total_pages)
    (Json.dumps (Json.Arr (images_for_js images))).
Proof.
  rewrite html_content_text. unfold page_text.
  repeat (first [apply contains_here | apply contains_app_r]).
Qed.

(** X10. A file name of printable ASCII characters without double quote and
    backslash is written into the script of the page exactly as it is,
    between double quotes after the key filename: the rendering escapes
    nothing for HTML. *)
Theorem plain_file_names_are_written_verbatim (t : TemplateText)
    (images : list ImageInfo) (images_per_page : Z) (title : string)
    (total_pages : Z) (img : ImageInfo) :
  img ∈ images → Further.plain (filename img) = true →
  Further.contains (html_content t images images_per_page title total_pages)
    (Json.encode_string "filename" +:+ ": "
     +:+ String QUOTE (filename img +:+ String QUOTE EmptyString)).
Proof.
  intros Hin (Hp & Hq & Hb)%plain_parts.
  eapply contains_trans; [apply page_contains_images_json|].
  rewrite dumps_arr. apply contains_cons, contains_app_l.
  eapply contains_trans.
  { apply (elems_text_contains (image_for_js img)). unfold images_for_js.
    apply list_elem_of_fmap. eauto. }
  destruct (image_for_js_filename img) as (kv & items & ->).
  rewrite dumps_obj. apply contains_cons, contains_app_l.
  rewrite members_text_cons, member_text_pair. apply contains_app_l.
  cbn [Json.dumps]. unfold Json.encode_string at 2.
  rewrite (proj2 (escape_for_js_fixed (filename img))) by done.
  rewrite encode_chars_plain by done.
  exists EmptyString, EmptyString. by rewrite str_app_nil_l, !str_app_assoc, str_app_nil_r.
Qed.

Lemma plain_file_names_are_written_verbatim_witness :
  image_info Sample.photos_gallery (Sample.clock 2) (Sample.blob "trip/c.gif")
    Sample.meta ∈ Sample.photos_images
  ∧ Further.plain "c.gif" = true
  ∧ Further.contains
      (html_content Sample.text Sample.photos_images 250 "GCS Image Gallery" 1)
      (Json.encode_string "filename" +:+ ": "
       +:+ String QUOTE ("c.gif" +:+ String QUOTE EmptyString)).
Proof.
  split; [apply list_elem_of_In; vm_compute; tauto|].
  split; [vm_compute; reflexivity|].
  apply (plain_file_names_are_written_verbatim Sample.text Sample.photos_images
           250 "GCS Image Gallery" 1
           (image_info Sample.photos_gallery (Sample.clock 2)
              (Sample.blob "trip/c.gif") Sample.meta)).
  - apply list_elem_of_In. vm_compute. tauto.
  - vm_compute. reflexivity.
Defined.

(** ** What the script of the page reads *)

(** X11. The script of the page reads the file name and the URL of an image
    as they are exactly when they hold neither a double quote nor a
    backslash; the size is always read as it is. *)
Theorem names_are_read_back_unless_quoted (images : list ImageInfo) :
  ∃ entries : list Json.value,
    Json.loads (Json.dumps (Json.Arr (images_for_js images)))
    = Some (Json.Arr entries)
    ∧ Forall2
        (fun img e =>
           (Json.get "filename" e = Some (Json.Str (filename img))
            ↔ occurs QUOTE (filename img) = false
              ∧ occurs BACKSLASH (filename img) = false)
           ∧ (Json.get "public_url" e = Some (Json.Str (public_url img))
              ↔ occurs QUOTE (public_url img) = false
                ∧ occurs BACKSLASH (public_url img) = false)
           ∧ (∀ n : Z, Json.get "size" e = Some (Json.Int n)
                       ↔ size img = Some n))
        images entries.
Proof.
  exists (map image_for_js images). split; [apply images_json_reads_back|].
  change (map image_for_js images) with (image_for_js <$> images).
  apply Forall2_fmap_r, Forall_Forall2_diag, Forall_forall.
  intros img _. split_and!.
  - rewrite filename_read_back, <- escape_for_js_fixed. split; congruence.
  - rewrite public_url_read_back, <- escape_for_js_fixed. split; congruence.
  - intros n. rewrite size_read_back. destruct (size img); split; congruence.
Qed.

(** ** What the page depends on *)

Lemma image_for_js_same_fields (a b : ImageInfo) :
  Further.same_page_fields a b → image_for_js a = image_for_js b.
Proof.
  intros (Hf & Hu & Hs & Hc & Ht & Hd & Hy). unfold image_for_js.
  by rewrite Hf, Hu, Hs, Hc, Ht, Hd, Hy.
Qed.

Lemma images_for_js_same_fields (images images' : list ImageInfo) :
  Forall2 Further.same_page_fields images images' →
  images_for_js images = images_for_js images' ∧ len images = len images'.
Proof.
  unfold images_for_js, len.
  induction 1 as [|a b l l' Hab Hl [IH1 IH2]]; [done|].
  cbn [map length]. rewrite (image_for_js_same_fields a b Hab), IH1.
  split; [done|]. apply Forall2_length in Hl. by rewrite Hl.
Qed.

(** X12. The page depends on the images through the seven fields that are
    copied into its script only: two lists whose entries agree on filename,
    public_url, size, created, content_type, date_str and date_display give
    the same file, whatever their name, updated and md5_hash, and whatever
    the gallery they are rendered by. *)
Theorem page_ignores_path_and_hash (t : TemplateText)
    (self self' : GCSImageGallery) (images images' : list ImageInfo)
    (output_file : string) (images_per_page : Z) (title : string)
    (fs : FileSystem) :
  Forall2 Further.same_page_fields images images' →
  generate_html_gallery t self images output_file images_per_page title fs
  = generate_html_gallery t self' images' output_file images_per_page title fs.
Proof.
  intros [Hjs Hlen]%images_for_js_same_fields.
  unfold generate_html_gallery, total_pages, html_content, render_context.
  by rewrite Hjs, Hlen.
Qed.

Lemma page_ignores_path_and_hash_witness :
  Forall2 Further.same_page_fields Sample.photos_images
    (map Cases.moved Sample.photos_images)
  ∧ Sample.photos_images ≠ map Cases.moved Sample.photos_images
  ∧ generate_html_gallery Sample.text Sample.photos_gallery Sample.photos_images
      "gallery.html" 2 "GCS Image Gallery" Sample.disk
    = generate_html_gallery Sample.text Cases.mixed_gallery
        (map Cases.moved Sample.photos_images)
        "gallery.html" 2 "GCS Image Gallery" Sample.disk.
Proof.
  assert (H : Forall2 Further.same_page_fields Sample.photos_images
                (map Cases.moved Sample.photos_images)).
  { unfold Sample.photos_images. cbn [map].
    repeat (apply List.Forall2_cons; [repeat split|]). apply List.Forall2_nil. }
  split; [exact H|]. split; [vm_compute; discriminate|].
  apply (page_ignores_path_and_hash Sample.text Sample.photos_gallery
           Cases.mixed_gallery Sample.photos_images
           (map Cases.moved Sample.photos_images) "gallery.html" 2
           "GCS Image Gallery" Sample.disk H).
Defined.

(** ** The command line *)

(** X13. Once the command line is parsed: when the listing raises, or
    returns no image, or --per-page is 0, the process ends with status 1
    and no file is changed, the output file is never opened.  When the
    process ends with status 0, the listing has returned at least one image,
    --per-page is not 0, the output file could be opened and holds the page
    of that listing, and every other file is as before. *)
Theorem main_writes_only_on_success (t : TemplateText) (storage : Client)
    (clock : Z → Z) (args : Args) (fs : FileSystem) :
  ((∃ e : exn,
       get_image_list
         (init storage (arg_project args) (arg_bucket args) (arg_folder args))
         clock
       = Raise e)
   ∨ get_image_list
       (init storage (arg_project args) (arg_bucket args) (arg_folder args))
       clock
     = Ok []
   ∨ arg_per_page args = 0 →
   main t storage clock args fs = (1, fs))
  ∧ (fst (main t storage clock args fs) = 0 →
     ∃ (img : ImageInfo) (images : list ImageInfo),
       get_image_list
         (init storage (arg_project args) (arg_bucket args) (arg_folder args))
         clock
       = Ok (img :: images)
       ∧ arg_per_page args ≠ 0
       ∧ can_write fs (arg_output args) = true
       ∧ files (snd (main t storage clock args fs)) !! arg_output args
         = Some (html_content t (img :: images) (arg_per_page args)
                   (arg_title args)
                   ((len (img :: images) + arg_per_page args - 1)
                    / arg_per_page args))
       ∧ ∀ path : string,
           path ≠ arg_output args →
           files (snd (main t storage clock args fs)) !! path
           = files fs !! path).
Proof.
  unfold main.
  destruct (get_image_list _ clock) as [[|img images]|e] eqn:Hl; cbn [fst snd].
  - split; [done|]. intros H. discriminate H.
  - destruct (Z.eq_dec (arg_per_page args) 0) as [Hz|Hz].
    { rewrite Hz, generate_html_gallery_zero. cbn [fst snd].
      split; [done|]. intros H. discriminate H. }
    destruct (can_write fs (arg_output args)) eqn:Hw.
    + rewrite generate_html_gallery_ok by done. cbn [fst snd files]. split.
      * intros [[e He]|[He|He]]; [discriminate He|discriminate He|done].
      * intros _. exists img, images. split_and!; [done..| |].
        -- by rewrite lookup_insert_eq.
        -- intros path Hp. by rewrite lookup_insert_ne.
    + assert (generate_html_gallery t
                (init storage (arg_project args) (arg_bucket args)
                   (arg_folder args))
                (img :: images) (arg_output args) (arg_per_page args)
                (arg_title args) fs = Raise OSError) as ->.
      { unfold generate_html_gallery. rewrite total_pages_eq by done. cbn.
        unfold write_file. by rewrite Hw. }
      cbn [fst snd]. split; [done|]. intros H. discriminate H.
  - split; [done|]. intros H. discriminate H.
Qed.

Lemma main_writes_only_on_success_witness :
  fst (main Sample.text Sample.photos Sample.clock (Sample.photos_args 2)
         Sample.disk) = 0
  ∧ ∃ (img : ImageInfo) (images : list ImageInfo),
      get_image_list (init Sample.photos "proj" "photos" "trip") Sample.clock
      = Ok (img :: images)
      ∧ files (snd (main Sample.text Sample.photos Sample.clock
                      (Sample.photos_args 2) Sample.disk))
          !! "gallery.html"%string
        = Some (html_content Sample.text (img :: images) 2 "GCS Image Gallery"
                  ((len (img :: images) + 2 - 1) / 2)).
Proof.
  split; [vm_compute; reflexivity|].
  destruct (proj2 (main_writes_only_on_success Sample.text Sample.photos
                     Sample.clock (Sample.photos_args 2) Sample.disk))
    as (img & images & Hl & _ & _ & Hf & _).
  - vm_compute. reflexivity.
  - exists img, images. split; [exact Hl|exact Hf].
Defined.
